(** * SJLJ exception dispatch of PNaCl's libcxxabi

    A shallow embedding of [src/cxa_pnacl_sjlj_exception.cpp]: the
    table-driven clause matcher, the walk over the stack of exception
    frames, and the commit that longjmp()s to a landingpad.

    Conventions of the embedding.
    - Pointers are addresses in [Z]; [NULL] is [0].
    - [int32_t]/[uint32_t] values are integers in [Z]; the conversions
      between the two are written out ([to_int32], [to_uint32]).
    - A C++ construct with undefined behaviour (an out-of-bounds table
      read, a call through a null type descriptor, signed overflow)
      yields [None].
    - Loops that follow links stored in memory take a [fuel] bound;
      running out of fuel also yields [None].
    - Every invocation of the comparator [can_catch] is recorded, in
      order, in a log that is returned next to the result. *)

From stdpp Require Import gmap list.
From Stdlib Require Import ZArith Lia.

Open Scope Z_scope.

(** ** Machine data *)

Abbreviation ptr := Z (only parsing).

Definition NULL : ptr := 0.

Definition int32_min : Z := -2147483648.
Definition int32_max : Z := 2147483647.

Definition int32_range (z : Z) : Prop := int32_min <= z <= int32_max.

(** Conversion of an integer to [int32_t] and to [uint32_t]
    (two's complement wrap-around). *)
Definition to_int32 (z : Z) : Z := (z + 2147483648) mod 4294967296 - 2147483648.
Definition to_uint32 (z : Z) : Z := z mod 4294967296.

(** [a[i]] for a C array whose extent is the length of the list. *)
Definition array_get {A : Type} (a : list A) (i : Z) : option A :=
  if i <? 0 then None else a !! Z.to_nat i.

(** [&a[i]], viewed as the part of the array that starts there. *)
Definition array_from {A : Type} (a : list A) (i : Z) : option (list A) :=
  if i <? 0 then None else Some (drop (Z.to_nat i) a).

(** ** Exception info tables and frames *)

Record action_table_entry := {
  clause_id : Z;              (* int32_t *)
  next_clause_list_id : Z     (* uint32_t *)
}.

Record landing_pad_result := {
  exception_obj : ptr;
  matched_clause_id : Z       (* uint32_t *)
}.

Definition jmp_buf := list Z.

(** The anonymous union of [exception_frame]: one storage, read either
    as the [jmp_buf] or as the [landing_pad_result]. *)
Inductive frame_union :=
| as_jmpbuf (jmpbuf : jmp_buf)
| as_result (result : landing_pad_result).

Record exception_frame := {
  payload : frame_union;
  next : ptr;
  clause_list_id : Z          (* uint32_t *)
}.

(** Modelled from the spec: the declarations of [__cxa_exception] and
    [__cxa_dependent_exception] in [cxa_exception.hpp], which is not
    among the sources.  The record has the fields of the fault handle
    that the dispatcher reads or writes (the two structures share their
    layout, [primaryException] being the dependent one's), with the
    [exception_class] of the [_Unwind_Exception] they end with. *)
Record cxa_exception := {
  exceptionType : ptr;
  unexpectedHandler : ptr;
  terminateHandler : ptr;
  handlerSwitchValue : Z;     (* int *)
  adjustedPtr : ptr;
  exception_class : Z;
  primaryException : ptr
}.

(** Memory: the thread's [__pnacl_eh_stack], the frames by address, and
    the exception headers by the address of their [_Unwind_Exception]. *)
Record state := {
  __pnacl_eh_stack : ptr;
  frames : gmap Z exception_frame;
  exceptions : gmap Z cxa_exception
}.

Definition set_eh_stack (top : ptr) (st : state) : state :=
  {| __pnacl_eh_stack := top; frames := frames st; exceptions := exceptions st |}.

Definition set_frame (a : ptr) (fr : exception_frame) (st : state) : state :=
  {| __pnacl_eh_stack := __pnacl_eh_stack st;
     frames := <[a := fr]> (frames st);
     exceptions := exceptions st |}.

Definition set_exception (a : ptr) (xh : cxa_exception) (st : state) : state :=
  {| __pnacl_eh_stack := __pnacl_eh_stack st;
     frames := frames st;
     exceptions := <[a := xh]> (exceptions st) |}.

Definition with_adjustedPtr (p : ptr) (xh : cxa_exception) : cxa_exception :=
  {| exceptionType := exceptionType xh;
     unexpectedHandler := unexpectedHandler xh;
     terminateHandler := terminateHandler xh;
     handlerSwitchValue := handlerSwitchValue xh;
     adjustedPtr := p;
     exception_class := exception_class xh;
     primaryException := primaryException xh |}.

Definition with_handlerSwitchValue (v : Z) (xh : cxa_exception) : cxa_exception :=
  {| exceptionType := exceptionType xh;
     unexpectedHandler := unexpectedHandler xh;
     terminateHandler := terminateHandler xh;
     handlerSwitchValue := v;
     adjustedPtr := adjustedPtr xh;
     exception_class := exception_class xh;
     primaryException := primaryException xh |}.

Definition with_payload (u : frame_union) (fr : exception_frame) : exception_frame :=
  {| payload := u; next := next fr; clause_list_id := clause_list_id fr |}.

(** ** Computations that call the comparator *)

(** One invocation [catch_type->can_catch(throw_type, adjusted)], with
    the value [adjusted] had on entry. *)
Record can_catch_call := {
  call_catch_type : ptr;
  call_throw_type : ptr;
  call_adjusted : ptr
}.

Definition M (A : Type) : Type := option (A * list can_catch_call).

Definition ret {A : Type} (a : A) : M A := Some (a, []).

(** A step with undefined behaviour. *)
Definition undefined {A : Type} : M A := None.

(** A loop that has used up its bound. *)
Definition out_of_fuel {A : Type} : M A := None.

Definition bind {A B : Type} (m : M A) (f : A -> M B) : M B :=
  match m with
  | None => None
  | Some (a, l1) =>
      match f a with
      | None => None
      | Some (b, l2) => Some (b, l1 ++ l2)
      end
  end.

Definition lift {A : Type} (o : option A) : M A :=
  match o with
  | Some a => ret a
  | None => undefined
  end.

Notation "'let*' x ':=' m 'in' f" := (bind m (fun x => f))
  (at level 10, x pattern, m at level 100, f at level 200).

(** The number of comparator invocations a computation made. *)
Definition invocations {A : Type} (m : M A) : option nat :=
  match m with
  | None => None
  | Some (_, l) => Some (length l)
  end.

(** What a call to one of the entry points does with control. *)
Inductive outcome (R : Type) : Type :=
| Return (r : R) (st : state)
| Longjmp (env : frame_union) (val : Z) (st : state)
| Terminate (st : state).

Arguments Return {R} r st.
Arguments Longjmp {R} env val st.
Arguments Terminate {R} st.

(** Modelled from the spec: the "no handler" signal, an enumerator of
    [_Unwind_Reason_Code] declared in [unwind.h], which is not among the
    sources; [5] is its value in the C++ ABI. *)
Definition _URC_END_OF_STACK : Z := 5.

(** The elements of [l] up to and including the first that satisfies [P]. *)
Fixpoint up_to_first {A : Type} (P : A -> bool) (l : list A) : list A :=
  match l with
  | [] => []
  | x :: l' => if P x then [x] else x :: up_to_first P l'
  end.

(** The entries of a filter list: what precedes its [0] sentinel. *)
Fixpoint until_sentinel (l : list Z) : option (list Z) :=
  match l with
  | [] => None
  | v :: l' =>
      if v =? 0 then Some []
      else match until_sentinel l' with
           | Some vs => Some (v :: vs)
           | None => None
           end
  end.

Section Dispatcher.

(** [can_catch catch_type throw_type adjusted] is the virtual method
    [catch_type->can_catch(throw_type, adjusted)] of [__shim_type_info],
    whose last parameter is a [void *&]: it returns the verdict and the
    value it leaves in [adjusted]. *)
Variable can_catch : ptr -> ptr -> ptr -> bool * ptr.

Variable __pnacl_eh_action_table : list action_table_entry.
Variable __pnacl_eh_type_table : list ptr.
Variable __pnacl_eh_filter_table : list Z.

(** [sizeof(struct _Unwind_Exception)] and the class tag of dependent
    exceptions, both declared in headers of the library. *)
Variable sizeof_Unwind_Exception : Z.
Variable kOurDependentExceptionClass : Z.

(** The addresses of the local variable [obj] of [handle_exception] and
    of the parameter [obj] of [is_exception_caught]. *)
Variable handle_exception_obj : ptr.
Variable is_exception_caught_obj : ptr.

Definition call_can_catch (catch_type throw_type adjusted : ptr) : M (bool * ptr) :=
  Some (can_catch catch_type throw_type adjusted,
        [{| call_catch_type := catch_type;
            call_throw_type := throw_type;
            call_adjusted := adjusted |}]).

(** The loop of [exception_spec_can_catch], from [filter_ptr] on.  The
    parameter [obj] is the callee's own copy, which [can_catch] updates
    from one iteration to the next. *)
Fixpoint exception_spec_loop (throw_type obj : ptr) (filter_ptr : list Z) : M bool :=
  match filter_ptr with
  | [] => undefined
  | v :: filter_ptr' =>
      if v =? 0 then ret true
      else
        let* catch_type := lift (array_get __pnacl_eh_type_table (v - 1)) in
        if catch_type =? NULL then undefined
        else
          let* (caught, obj') := call_can_catch catch_type throw_type obj in
          if caught then ret false
          else exception_spec_loop throw_type obj' filter_ptr'
  end.

Definition exception_spec_can_catch (throw_type obj : ptr) (filter_id : Z) : M bool :=
  if filter_id =? int32_min then undefined
  else
    let* filter_ptr := lift (array_from __pnacl_eh_filter_table (- filter_id - 1)) in
    exception_spec_loop throw_type obj filter_ptr.

(** [does_clause_match throw_type obj star_obj clause_id]: [obj] is the
    [void **] argument, [star_obj] the pointer stored there; the result
    carries the value of [*obj] on return. *)
Definition does_clause_match (throw_type obj star_obj : ptr) (clause_id : Z)
  : M (bool * ptr) :=
  if clause_id =? 0 then ret (true, star_obj)
  else if clause_id <? 0 then
    (* the argument is [obj] itself, converted from [void **] to [void *] *)
    let* violated := exception_spec_can_catch throw_type obj clause_id in
    ret (violated, star_obj)
  else
    let* catch_type := lift (array_get __pnacl_eh_type_table (clause_id - 1)) in
    if catch_type =? NULL then ret (true, star_obj)
    else call_can_catch catch_type throw_type star_obj.

(** The loop of [does_frame_match]; [clause_list_id] is the [int32_t]
    loop variable. *)
Fixpoint does_frame_match_loop (fuel : nat) (throw_type obj star_obj : ptr)
    (clause_list_id : Z) : M (option Z * ptr) :=
  if clause_list_id =? 0 then ret (None, star_obj)
  else
    match fuel with
    | O => out_of_fuel
    | S fuel' =>
        let* list_node :=
          lift (array_get __pnacl_eh_action_table (clause_list_id - 1)) in
        let* (matched, star_obj') :=
          does_clause_match throw_type obj star_obj (clause_id list_node) in
        if matched then ret (Some (clause_id list_node), star_obj')
        else
          does_frame_match_loop fuel' throw_type obj star_obj'
            (to_int32 (next_clause_list_id list_node))
    end.

(** [does_frame_match]: [Some c] stands for returning [true] with
    [*result_clause_id = c], [None] for returning [false]; the second
    component is [*obj] on return. *)
Definition does_frame_match (fuel : nat) (throw_type obj star_obj : ptr)
    (frame : exception_frame) : M (option Z * ptr) :=
  does_frame_match_loop fuel throw_type obj star_obj
    (to_int32 (clause_list_id frame)).

(** The loop of [find_match] over the frames in memory [fs]; [n] bounds
    the number of frames visited, [fuel] each clause-list walk. *)
Fixpoint find_match_loop (n fuel : nat) (fs : gmap Z exception_frame)
    (throw_type obj star_obj frame : ptr) : M (option (ptr * Z) * ptr) :=
  if frame =? NULL then ret (None, star_obj)
  else
    match n with
    | O => out_of_fuel
    | S n' =>
        let* fr := lift (fs !! frame) in
        let* (matched, star_obj') :=
          does_frame_match fuel throw_type obj star_obj fr in
        match matched with
        | Some result_clause_id => ret (Some (frame, result_clause_id), star_obj')
        | None => find_match_loop n' fuel fs throw_type obj star_obj' (next fr)
        end
    end.

Definition find_match (fuel : nat) (fs : gmap Z exception_frame)
    (throw_type obj star_obj frame : ptr) : M (option (ptr * Z) * ptr) :=
  find_match_loop fuel fuel fs throw_type obj star_obj frame.

(** The loop of [is_exception_caught]; [obj] is the function's own
    parameter, whose address [is_exception_caught_obj] it passes on. *)
Fixpoint is_exception_caught_loop (n fuel : nat) (fs : gmap Z exception_frame)
    (throw_type obj frame : ptr) : M bool :=
  if frame =? NULL then ret false
  else
    match n with
    | O => out_of_fuel
    | S n' =>
        let* fr := lift (fs !! frame) in
        let* (matched, obj') :=
          does_frame_match fuel throw_type is_exception_caught_obj obj fr in
        match matched with
        | Some clause_id =>
            if negb (clause_id =? 0) then ret true
            else is_exception_caught_loop n' fuel fs throw_type obj' (next fr)
        | None => is_exception_caught_loop n' fuel fs throw_type obj' (next fr)
        end
    end.

Definition is_exception_caught (fuel : nat) (fs : gmap Z exception_frame)
    (throw_type obj frame : ptr) : M bool :=
  is_exception_caught_loop fuel fuel fs throw_type obj frame.

Definition get_object_from_ue (ue_header : ptr) (xh : cxa_exception) : ptr :=
  if exception_class xh =? kOurDependentExceptionClass
  then primaryException xh
  else ue_header + sizeof_Unwind_Exception.

(** Assignments through [xh] and through [frame]. *)
Definition store_exception (ue_header : ptr) (f : cxa_exception -> cxa_exception)
    (st : state) : M state :=
  let* xh := lift (exceptions st !! ue_header) in
  ret (set_exception ue_header (f xh) st).

Definition store_frame (frame : ptr) (f : exception_frame -> exception_frame)
    (st : state) : M state :=
  let* fr := lift (frames st !! frame) in
  ret (set_frame frame (f fr) st).

(** [handle_exception].  The two assignments to [frame->result] are one
    store of the pair. *)
Definition handle_exception (fuel : nat) (ue_header : ptr) (check_for_catch : bool)
    (st : state) : M (outcome unit) :=
  let* xh := lift (exceptions st !! ue_header) in
  let obj := get_object_from_ue ue_header xh in
  let* (found, obj) :=
    find_match fuel (frames st) (exceptionType xh) handle_exception_obj obj
      (__pnacl_eh_stack st) in
  match found with
  | None => ret (Return tt st)
  | Some (frame, clause_id) =>
      let* fr := lift (frames st !! frame) in
      let* uncaught :=
        (if check_for_catch && (clause_id =? 0) then
           let* caught :=
             is_exception_caught fuel (frames st) (exceptionType xh) obj (next fr) in
           ret (negb caught)
         else ret false) in
      if uncaught then ret (Return tt st)
      else
        let st := set_eh_stack (next fr) st in
        let* st := store_exception ue_header (with_adjustedPtr obj) st in
        let* st := store_exception ue_header (with_handlerSwitchValue clause_id) st in
        let* fr := lift (frames st !! frame) in
        let jmpbuf_copy := payload fr in
        let* st :=
          store_frame frame
            (with_payload
               (as_result {| exception_obj := ue_header;
                             matched_clause_id := to_uint32 clause_id |})) st in
        ret (Longjmp jmpbuf_copy 1 st)
  end.

Definition __pnacl_eh_sjlj_Unwind_RaiseException (fuel : nat) (ue_header : ptr)
    (st : state) : M (outcome Z) :=
  let* o := handle_exception fuel ue_header true st in
  match o with
  | Return _ st' => ret (Return _URC_END_OF_STACK st')
  | Longjmp env val st' => ret (Longjmp env val st')
  | Terminate st' => ret (Terminate st')
  end.

(** [__cxa_begin_catch ue_header st] is the memory the call
    [__cxa_begin_catch(ue_header)] leaves; the function is defined in
    another source file and marks the exception as handled. *)
Variable __cxa_begin_catch : ptr -> state -> state.

(** [__pnacl_eh_resume]: when [handle_exception] comes back,
    [__cxa_begin_catch(ue_header)] is called, then [std::terminate()]. *)
Definition __pnacl_eh_resume (fuel : nat) (ue_header : ptr) (st : state)
  : M (outcome Empty_set) :=
  let* o := handle_exception fuel ue_header false st in
  match o with
  | Return _ st' => ret (Terminate (__cxa_begin_catch ue_header st'))
  | Longjmp env val st' => ret (Longjmp env val st')
  | Terminate st' => ret (Terminate st')
  end.

Definition __pnacl_eh_sjlj_Unwind_Resume_or_Rethrow (fuel : nat) (ue_header : ptr)
    (st : state) : M (outcome Z) :=
  __pnacl_eh_sjlj_Unwind_RaiseException fuel ue_header st.

(** ** [__cxa_call_unexpected] *)

(** What [std::__unexpected(u_handler)] did: came back, or left by an
    exception, which is then [globals->caughtExceptions]. *)
Inductive unexpected_result :=
| unexpected_returned (st : state)
| unexpected_threw (new_ue_header : ptr) (st : state).

(** How control leaves [__pnacl_eh_sjlj_cxa_call_unexpected]. *)
Inductive unexpected_exit :=
| exit_rethrow (ue_header : ptr)          (* throw; *)
| exit_throw_bad_exception                (* throw be; *)
| exit_terminate (t_handler : ptr)        (* std::__terminate(t_handler) *)
| exit_return.

(** [&typeid(be)] and [&be]. *)
Variable typeid_bad_exception : ptr.
Variable be : ptr.

(** [run_unexpected] stands for [std::__unexpected], which is defined
    in another source file.  The calls of [__cxa_begin_catch] and
    [__cxa_end_catch], which keep the books of the exception object
    store, are left out. *)
Definition __pnacl_eh_sjlj_cxa_call_unexpected
    (run_unexpected : ptr -> state -> unexpected_result)
    (ue_header : ptr) (st : state) : M unexpected_exit :=
  let* old_exception_header := lift (exceptions st !! ue_header) in
  let filter_id := handlerSwitchValue old_exception_header in
  let u_handler := unexpectedHandler old_exception_header in
  let t_handler := terminateHandler old_exception_header in
  match run_unexpected u_handler st with
  | unexpected_returned _ => ret (exit_terminate t_handler)
  | unexpected_threw new_ue_header st' =>
      let* new_exception_header := lift (exceptions st' !! new_ue_header) in
      let* violated :=
        exception_spec_can_catch (exceptionType new_exception_header)
          (get_object_from_ue new_ue_header new_exception_header) filter_id in
      if negb violated then ret (exit_rethrow new_ue_header)
      else
        let* violated_be :=
          exception_spec_can_catch typeid_bad_exception be filter_id in
        if negb violated_be then ret exit_throw_bad_exception
        else ret (exit_terminate t_handler)
  end.

(** ** Notions used to state the properties *)

(** The verdict the comparator gives for a recorded invocation. *)
Definition catches (c : can_catch_call) : bool :=
  fst (can_catch (call_catch_type c) (call_throw_type c) (call_adjusted c)).

(** The invocations made when each type of [tys] is asked in turn, the
    pointer left by one invocation being handed to the next. *)
Fixpoint comparator_calls (throw_type obj : ptr) (tys : list ptr)
  : list can_catch_call :=
  match tys with
  | [] => []
  | ty :: tys' =>
      {| call_catch_type := ty; call_throw_type := throw_type; call_adjusted := obj |}
      :: comparator_calls throw_type (snd (can_catch ty throw_type obj)) tys'
  end.

(** The type-table ordinals of the filter list of [filter_id]. *)
Definition filter_list (filter_id : Z) : option (list Z) :=
  match array_from __pnacl_eh_filter_table (- filter_id - 1) with
  | Some l => until_sentinel l
  | None => None
  end.

(** The type descriptors the ordinals name, when all are present. *)
Fixpoint listed_types (ordinals : list Z) : option (list ptr) :=
  match ordinals with
  | [] => Some []
  | v :: ordinals' =>
      match array_get __pnacl_eh_type_table (v - 1), listed_types ordinals' with
      | Some ty, Some tys => if ty =? NULL then None else Some (ty :: tys)
      | _, _ => None
      end
  end.

(** [clause_list id l]: following [next_clause_list_id] from the clause
    list id [id] visits exactly the entries [l], then reaches [0]. *)
Inductive clause_list : Z -> list action_table_entry -> Prop :=
| clause_list_end : clause_list 0 []
| clause_list_node (id : Z) (e : action_table_entry) (l : list action_table_entry) :
    id <> 0 ->
    array_get __pnacl_eh_action_table (id - 1) = Some e ->
    clause_list (to_int32 (next_clause_list_id e)) l ->
    clause_list id (e :: l).

(** [first_match throw_type obj p l r log]: offered the entries [l] in
    order, starting with [*obj = p], the clause matcher accepts none
    ([r = (None, _)]) or accepts a first one after rejecting every
    entry before it ([r = (Some clause_id, _)]); [log] is what the
    comparator was asked on the way. *)
Inductive first_match (throw_type obj : ptr)
  : ptr -> list action_table_entry -> option Z * ptr -> list can_catch_call -> Prop :=
| first_match_none (p : ptr) :
    first_match throw_type obj p [] (None, p) []
| first_match_here (p p' : ptr) (e : action_table_entry)
    (l : list action_table_entry) (log : list can_catch_call) :
    does_clause_match throw_type obj p (clause_id e) = Some ((true, p'), log) ->
    first_match throw_type obj p (e :: l) (Some (clause_id e), p') log
| first_match_later (p p' : ptr) (e : action_table_entry)
    (l : list action_table_entry) (r : option Z * ptr)
    (log log' : list can_catch_call) :
    does_clause_match throw_type obj p (clause_id e) = Some ((false, p'), log) ->
    first_match throw_type obj p' l r log' ->
    first_match throw_type obj p (e :: l) r (log ++ log').

(** Raising as section 4.5 of the specification words it: the probe
    goes over the whole stack, from the top frame, before anything
    else; the search and the commit follow. *)
Definition raise_probe_first (fuel : nat) (ue_header : ptr) (st : state)
  : M (outcome Z) :=
  let* xh := lift (exceptions st !! ue_header) in
  let obj := get_object_from_ue ue_header xh in
  let* caught :=
    is_exception_caught fuel (frames st) (exceptionType xh) obj
      (__pnacl_eh_stack st) in
  if negb caught then ret (Return _URC_END_OF_STACK st)
  else
    let* o := handle_exception fuel ue_header false st in
    match o with
    | Return _ st' => ret (Return _URC_END_OF_STACK st')
    | Longjmp env val st' => ret (Longjmp env val st')
    | Terminate st' => ret (Terminate st')
    end.

(** How a complete unwind ends. *)
Inductive unwind_end :=
| unwind_unhandled (st : state)
| unwind_caught (st : state)
| unwind_terminated (st : state).

(** The code of a landingpad is emitted by the compiler and is not part
    of this library; this follows the account the specification gives
    of it.  A landingpad entered for a cleanup (clause id [0], which
    [handle_exception] also left in [handlerSwitchValue]) runs its
    destructors and calls [__pnacl_eh_resume]; one entered for another
    clause keeps the exception.  [k] bounds the number of landingpads
    entered. *)
Fixpoint resume_cleanups (k fuel : nat) (ue_header : ptr) (st : state)
  : M unwind_end :=
  let* xh := lift (exceptions st !! ue_header) in
  if handlerSwitchValue xh =? 0 then
    match k with
    | O => out_of_fuel
    | S k' =>
        let* o := __pnacl_eh_resume fuel ue_header st in
        match o with
        | Return r _ => match r with end
        | Longjmp _ _ st' => resume_cleanups k' fuel ue_header st'
        | Terminate st' => ret (unwind_terminated st')
        end
    end
  else ret (unwind_caught st).

(** A throw followed by the landingpads it runs through. *)
Definition unwind (k fuel : nat) (ue_header : ptr) (st : state) : M unwind_end :=
  let* o := __pnacl_eh_sjlj_Unwind_RaiseException fuel ue_header st in
  match o with
  | Return _ st' => ret (unwind_unhandled st')
  | Longjmp _ _ st' => resume_cleanups k fuel ue_header st'
  | Terminate st' => ret (unwind_terminated st')
  end.

(** The memory [handle_exception] leaves when it enters the landingpad
    of the frame [fr] at [frame] for the clause [clause_id], with [obj]
    the adjusted pointer and [xh] the header the exception had. *)
Definition landed (ue_header frame obj : ptr) (clause_id : Z)
    (xh : cxa_exception) (fr : exception_frame) (st : state) : state :=
  {| __pnacl_eh_stack := next fr;
     frames :=
       <[frame := with_payload
                    (as_result {| exception_obj := ue_header;
                                  matched_clause_id := to_uint32 clause_id |}) fr]>
         (frames st);
     exceptions :=
       <[ue_header := with_handlerSwitchValue clause_id (with_adjustedPtr obj xh)]>
         (exceptions st) |}.


(** A frame whose clause list is the single cleanup clause. *)
Definition cleanup_only (fr : exception_frame) : bool :=
  match array_get __pnacl_eh_action_table (to_int32 (clause_list_id fr) - 1) with
  | Some e =>
      negb (to_int32 (clause_list_id fr) =? 0)
      && (clause_id e =? 0)
      && (to_int32 (next_clause_list_id e) =? 0)
  | None => false
  end.

(** A frame whose first clause is a catch of a type that catches the
    exception of type [throw_type] at [obj]: [Some clause_id]. *)
Definition catches_first (throw_type obj : ptr) (fr : exception_frame) : option Z :=
  match array_get __pnacl_eh_action_table (to_int32 (clause_list_id fr) - 1) with
  | Some e =>
      match array_get __pnacl_eh_type_table (clause_id e - 1) with
      | Some catch_type =>
          if negb (to_int32 (clause_list_id fr) =? 0)
             && (0 <? clause_id e)
             && negb (catch_type =? NULL)
             && fst (can_catch catch_type throw_type obj)
          then Some (clause_id e)
          else None
      | None => None
      end
  | None => None
  end.

End Dispatcher.

(** [stack_chain fs top l]: in the memory [fs], following [next] from
    [top] visits the frames at the addresses [l], then reaches [NULL]. *)
Inductive stack_chain (fs : gmap Z exception_frame) : ptr -> list ptr -> Prop :=
| stack_chain_end : stack_chain fs NULL []
| stack_chain_frame (a : ptr) (fr : exception_frame) (l : list ptr) :
    a <> NULL ->
    fs !! a = Some fr ->
    stack_chain fs (next fr) l ->
    stack_chain fs a (a :: l).

(** ** Example tables and memories *)

Definition type_A : ptr := 16.
Definition type_B : ptr := 32.
(** A class derived from [type_B], whose [type_B] part lies 8 bytes in. *)
Definition type_D : ptr := 48.

(** A comparator that catches a type by itself, and [type_D] by its
    base [type_B], adjusting the pointer to the base part. *)
Definition ex_can_catch (catch_type throw_type adjusted : ptr) : bool * ptr :=
  if catch_type =? throw_type then (true, adjusted)
  else if (catch_type =? type_B) && (throw_type =? type_D)
       then (true, adjusted + 8)
       else (false, adjusted).

(** A comparator that moves the pointer before it compares the types,
    and leaves it moved whatever the verdict. *)
Definition ex_eager_can_catch (catch_type throw_type adjusted : ptr) : bool * ptr :=
  (catch_type =? throw_type, adjusted + 8).

(** A comparator that looks at the thrown object: it only recognises
    the object that lies at address [9032]. *)
Definition ex_reading_can_catch (catch_type throw_type adjusted : ptr)
  : bool * ptr :=
  ((catch_type =? throw_type) && (adjusted =? 9032), adjusted).

(** Type ordinals: 1 is [type_A], 2 is the null entry, 3 is [type_B]. *)
Definition ex_type_table : list ptr := [type_A; NULL; type_B].

(** Filter [-1] lists [type_A]; filter [-3] lists [type_B] and [type_A]. *)
Definition ex_filter_table : list Z := [1; 0; 3; 1; 0].

(** Clause lists: 1 is a cleanup; 2 catches [type_A]; 3 is the null
    entry then [type_A]; 4 is [type_A] then the null entry (entry 5);
    6 is the filter [-1]; 7 catches [type_B], then a cleanup. *)
Definition ex_action_table : list action_table_entry :=
  [ {| clause_id := 0; next_clause_list_id := 0 |};
    {| clause_id := 1; next_clause_list_id := 0 |};
    {| clause_id := 2; next_clause_list_id := 2 |};
    {| clause_id := 1; next_clause_list_id := 5 |};
    {| clause_id := 2; next_clause_list_id := 0 |};
    {| clause_id := -1; next_clause_list_id := 0 |};
    {| clause_id := 3; next_clause_list_id := 1 |} ].

Definition ex_frame (jmpbuf : jmp_buf) (next_frame : ptr) (clauses : Z)
  : exception_frame :=
  {| payload := as_jmpbuf jmpbuf; next := next_frame; clause_list_id := clauses |}.

(** An exception header; with [_Unwind_Exception] of 32 bytes, the
    object thrown with the header at [9000] lies at [9032]. *)
Definition ex_exception (throw_type : ptr) (switch_value : Z) : cxa_exception :=
  {| exceptionType := throw_type;
     unexpectedHandler := 700;
     terminateHandler := 800;
     handlerSwitchValue := switch_value;
     adjustedPtr := 0;
     exception_class := 0;
     primaryException := 0 |}.

(** A frame that catches [type_B] or cleans up, inside one that catches
    [type_A]; an exception of type [type_D] is thrown. *)
Definition ex_memory_catch : state :=
  {| __pnacl_eh_stack := 2000;
     frames := <[2000 := ex_frame [2] 3000 7]> (<[3000 := ex_frame [3] 0 2]> ∅);
     exceptions := <[9000 := ex_exception type_D 0]> ∅ |}.

(** A cleanup frame inside a frame that catches [type_A]; an exception
    of type [type_B] is thrown. *)
Definition ex_memory_unhandled : state :=
  {| __pnacl_eh_stack := 1000;
     frames := <[1000 := ex_frame [1] 3000 1]> (<[3000 := ex_frame [3] 0 2]> ∅);
     exceptions := <[9000 := ex_exception type_B 0]> ∅ |}.

(** One frame that catches [type_A]; an exception of type [type_A]. *)
Definition ex_memory_handler : state :=
  {| __pnacl_eh_stack := 3000;
     frames := <[3000 := ex_frame [3] 0 2]> ∅;
     exceptions := <[9000 := ex_exception type_A 0]> ∅ |}.

(** A frame that catches [type_A] inside a frame that catches the
    same; an exception of type [type_B] is thrown. *)
Definition ex_memory_no_match : state :=
  {| __pnacl_eh_stack := 2000;
     frames := <[2000 := ex_frame [2] 3000 2]> (<[3000 := ex_frame [3] 0 2]> ∅);
     exceptions := <[9000 := ex_exception type_B 0]> ∅ |}.

(** Two cleanup frames inside a frame that catches [type_A]; an
    exception of type [type_A] is thrown. *)
Definition ex_memory_cleanups : state :=
  {| __pnacl_eh_stack := 1000;
     frames := <[1000 := ex_frame [1] 1100 1]>
                 (<[1100 := ex_frame [11] 3000 1]>
                    (<[3000 := ex_frame [3] 0 2]> ∅));
     exceptions := <[9000 := ex_exception type_A 0]> ∅ |}.

(** An exception that was caught by the filter [-1], and the exception
    of type [throw_type] that the handler for unexpected exceptions
    throws in its place. *)
Definition ex_memory_unexpected (throw_type : ptr) : state :=
  {| __pnacl_eh_stack := 0;
     frames := ∅;
     exceptions := <[9000 := ex_exception type_B (-1)]>
                     (<[9500 := ex_exception throw_type 0]> ∅) |}.

Definition ex_run_unexpected (u_handler : ptr) (st : state) : unexpected_result :=
  unexpected_threw 9500 st.

(** The books [__cxa_begin_catch] keeps (the count of handlers, the
    stack of caught exceptions) lie outside the fields kept in [state]. *)
Definition ex_begin_catch (ue_header : ptr) (st : state) : state := st.

(** ** Further notions *)

(** A comparator that leaves the pointer alone when it rejects. *)
Definition keeps_on_reject (can_catch : ptr -> ptr -> ptr -> bool * ptr) : Prop :=
  forall catch_type throw_type adjusted,
    fst (can_catch catch_type throw_type adjusted) = false ->
    snd (can_catch catch_type throw_type adjusted) = adjusted.

(** An action table with cleanup and catch clauses only. *)
Definition no_filter_clauses (action_table : list action_table_entry) : Prop :=
  Forall (fun e => 0 <= clause_id e) action_table.

(** What the walks over the frames read of a frame. *)
Definition links (fr : exception_frame) : ptr * Z :=
  (next fr, clause_list_id fr).

(** Two memories whose frames differ at most in their storage. *)
Definition same_links (fs fs' : gmap Z exception_frame) : Prop :=
  forall a : ptr, links <$> (fs !! a) = links <$> (fs' !! a).

(** The result of a computation, without the log. *)
Definition outcome_of {A : Type} (m : M A) : option A :=
  match m with
  | Some (a, _) => Some a
  | None => None
  end.

(** The computation [m] after the invocations [log]. *)
Definition after_log {A : Type} (log : list can_catch_call) (m : M A) : M A :=
  match m with
  | Some (a, l) => Some (a, log ++ l)
  | None => None
  end.

(** A frame that catches [type_A] inside a frame that catches [type_B]
    or cleans up; an exception of type [type_B] is thrown. *)
Definition ex_memory_passed : state :=
  {| __pnacl_eh_stack := 2000;
     frames := <[2000 := ex_frame [2] 3000 2]> (<[3000 := ex_frame [3] 0 7]> ∅);
     exceptions := <[9000 := ex_exception type_B 0]> ∅ |}.

(** The example table without its filter clause. *)
Definition ex_catch_table : list action_table_entry :=
  [ {| clause_id := 0; next_clause_list_id := 0 |};
    {| clause_id := 1; next_clause_list_id := 0 |};
    {| clause_id := 3; next_clause_list_id := 1 |} ].

(** * Properties *)

(** ** The monad of logged computations *)

Lemma bind_Some {A B : Type} (m : M A) (f : A -> M B) (b : B)
    (l : list can_catch_call) :
  bind m f = Some (b, l) <->
  exists a l1 l2, m = Some (a, l1) /\ f a = Some (b, l2) /\ l = l1 ++ l2.
Proof.
  unfold bind. split.
  - destruct m as [[a l1]|]; [|discriminate].
    destruct (f a) as [[b' l2]|] eqn:Hf; [|discriminate].
    intros [= <- <-]. exists a, l1, l2. auto.
  - intros (a & l1 & l2 & -> & -> & ->). reflexivity.
Qed.

Lemma bind_ret {A B : Type} (a : A) (f : A -> M B) : bind (ret a) f = f a.
Proof. unfold bind, ret. destruct (f a) as [[b l]|]; reflexivity. Qed.

Lemma bind_lift_Some {A B : Type} (o : option A) (a : A) (f : A -> M B) :
  o = Some a -> bind (lift o) f = f a.
Proof. intros ->. apply bind_ret. Qed.

Lemma bind_eq_Some {A B : Type} (m : M A) (f : A -> M B) (a : A) (b : B)
    (l1 l2 : list can_catch_call) :
  m = Some (a, l1) -> f a = Some (b, l2) -> bind m f = Some (b, l1 ++ l2).
Proof. intros -> Hf. unfold bind. rewrite Hf. reflexivity. Qed.

(** ** Integer conversions *)

Lemma to_int32_to_uint32 (z : Z) : int32_range z -> to_int32 (to_uint32 z) = z.
Proof.
  unfold int32_range, int32_min, int32_max, to_int32, to_uint32. intros Hz.
  Z.to_euclidean_division_equations. lia.
Qed.

(** ** Lists *)




(** ** The chain of frames *)

Lemma stack_chain_functional (fs : gmap Z exception_frame) (a : ptr)
    (l1 l2 : list ptr) :
  stack_chain fs a l1 -> stack_chain fs a l2 -> l1 = l2.
Proof.
  intros H1. revert l2.
  induction H1 as [|a fr l Ha Hfr Hl IH]; intros l2 H2.
  - inversion H2; subst; [reflexivity|congruence].
  - inversion H2 as [|a' fr' l' Ha' Hfr' Hl']; subst; [congruence|].
    rewrite Hfr in Hfr'. injection Hfr' as <-.
    f_equal. apply IH. assumption.
Qed.

Lemma stack_chain_cons_inv (fs : gmap Z exception_frame) (a b : ptr)
    (l : list ptr) :
  stack_chain fs a (b :: l) ->
  a = b /\ b <> NULL /\
  exists fr, fs !! b = Some fr /\ stack_chain fs (next fr) l.
Proof. intros H. inversion H; subst. eauto. Qed.

Lemma stack_chain_from (fs : gmap Z exception_frame) (a b : ptr)
    (l1 l2 : list ptr) :
  stack_chain fs a (l1 ++ b :: l2) -> stack_chain fs b (b :: l2).
Proof.
  revert a. induction l1 as [|x l1 IH]; intros a H.
  - simpl in H. inversion H; subst. assumption.
  - simpl in H. inversion H; subst. eapply IH. eassumption.
Qed.

Lemma stack_chain_not_in_tail (fs : gmap Z exception_frame) (a : ptr)
    (l : list ptr) :
  stack_chain fs a (a :: l) -> a ∉ l.
Proof.
  intros H Hin.
  apply list_elem_of_split in Hin as (l1 & l2 & ->).
  assert (Hsuf : stack_chain fs a (a :: l2)).
  { apply (stack_chain_from fs a a (a :: l1) l2). assumption. }
  pose proof (stack_chain_functional _ _ _ _ H Hsuf) as Heq.
  apply (f_equal length) in Heq. simpl in Heq. rewrite length_app in Heq.
  simpl in Heq. lia.
Qed.

Lemma stack_chain_NoDup (fs : gmap Z exception_frame) (a : ptr) (l : list ptr) :
  stack_chain fs a l -> NoDup l.
Proof.
  intros H. induction H as [|a fr l Ha Hfr Hl IH].
  - constructor.
  - constructor; [|assumption].
    eapply stack_chain_not_in_tail. econstructor; eassumption.
Qed.

(** Overwriting frames that are not on the chain leaves it as it is. *)
Lemma stack_chain_insert (fs : gmap Z exception_frame) (a b : ptr)
    (fr : exception_frame) (l : list ptr) :
  stack_chain fs a l -> b ∉ l -> stack_chain (<[b := fr]> fs) a l.
Proof.
  intros H. induction H as [|a fr0 l Ha Hfr Hl IH]; intros Hb.
  - constructor.
  - apply not_elem_of_cons in Hb as [Hne Hb].
    econstructor; [assumption| |apply IH; assumption].
    rewrite lookup_insert_ne by congruence. assumption.
Qed.

Section Facts.

Variable can_catch : ptr -> ptr -> ptr -> bool * ptr.
Variable action_table : list action_table_entry.
Variable type_table : list ptr.
Variable filter_table : list Z.
Variable sizeof_Unwind_Exception : Z.
Variable kOurDependentExceptionClass : Z.
Variable handle_exception_obj : ptr.
Variable is_exception_caught_obj : ptr.
Variable __cxa_begin_catch : ptr -> state -> state.
Variable typeid_bad_exception : ptr.
Variable be : ptr.

Local Abbreviation spec_loop := (exception_spec_loop can_catch type_table).
Local Abbreviation spec_can_catch :=
  (exception_spec_can_catch can_catch type_table filter_table).
Local Abbreviation clause_match :=
  (does_clause_match can_catch type_table filter_table).
Local Abbreviation frame_match :=
  (does_frame_match can_catch action_table type_table filter_table).
Local Abbreviation frame_match_loop :=
  (does_frame_match_loop can_catch action_table type_table filter_table).

(** *** The filter evaluator *)

Lemma exception_spec_loop_calls (l ordinals : list Z) (tys : list ptr)
    (throw_type obj : ptr) :
  until_sentinel l = Some ordinals ->
  listed_types type_table ordinals = Some tys ->
  spec_loop throw_type obj l =
    Some (negb (existsb (catches can_catch) (comparator_calls can_catch throw_type obj tys)),
          up_to_first (catches can_catch) (comparator_calls can_catch throw_type obj tys)).
Proof.
  revert ordinals tys obj.
  induction l as [|v l IH]; intros ordinals tys obj Hl Htys; [discriminate|].
  simpl in Hl. simpl. destruct (v =? 0) eqn:Hv.
  - injection Hl as <-. injection Htys as <-. reflexivity.
  - destruct (until_sentinel l) as [vs|] eqn:Hvs; [|discriminate].
    injection Hl as <-. simpl in Htys.
    destruct (array_get type_table (v - 1)) as [ty|] eqn:Hty; [|discriminate].
    destruct (listed_types type_table vs) as [tys'|] eqn:Htys'; [|discriminate].
    destruct (ty =? NULL) eqn:Hnull; [discriminate|].
    injection Htys as <-.
    cbn [lift]. rewrite bind_ret, Hnull. simpl comparator_calls. simpl existsb. simpl up_to_first.
    unfold catches at 1 3. simpl.
    unfold call_can_catch, bind.
    destruct (can_catch ty throw_type obj) as [caught obj'] eqn:Hcc. simpl.
    destruct caught; [reflexivity|].
    rewrite (IH vs tys' obj' eq_refl Htys'). reflexivity.
Qed.

Lemma exception_spec_can_catch_calls (throw_type obj filter_id : Z)
    (ordinals : list Z) (tys : list ptr) :
  filter_id <> int32_min ->
  filter_list filter_table filter_id = Some ordinals ->
  listed_types type_table ordinals = Some tys ->
  spec_can_catch throw_type obj filter_id =
    Some (negb (existsb (catches can_catch) (comparator_calls can_catch throw_type obj tys)),
          up_to_first (catches can_catch) (comparator_calls can_catch throw_type obj tys)).
Proof.
  intros Hmin Hl Htys. unfold exception_spec_can_catch, filter_list in *.
  apply Z.eqb_neq in Hmin. rewrite Hmin.
  destruct (array_from filter_table (- filter_id - 1)) as [l|]; [|discriminate].
  cbn [lift]. rewrite bind_ret. eapply exception_spec_loop_calls; eauto.
Qed.

(** *** The clause matcher *)

Lemma does_clause_match_cleanup (throw_type obj p : ptr) :
  clause_match throw_type obj p 0 = Some ((true, p), []).
Proof. reflexivity. Qed.

Lemma does_clause_match_filter (throw_type obj p : ptr) (clause_id : Z) :
  clause_id < 0 ->
  clause_match throw_type obj p clause_id =
    (let* violated := spec_can_catch throw_type obj clause_id in ret (violated, p)).
Proof.
  intros Hneg. unfold does_clause_match.
  destruct (clause_id =? 0) eqn:H0; [apply Z.eqb_eq in H0; lia|].
  destruct (clause_id <? 0) eqn:Hlt; [reflexivity|apply Z.ltb_ge in Hlt; lia].
Qed.

Lemma does_clause_match_catch_all (throw_type obj p : ptr) (clause_id : Z) :
  0 < clause_id ->
  array_get type_table (clause_id - 1) = Some NULL ->
  clause_match throw_type obj p clause_id = Some ((true, p), []).
Proof.
  intros Hpos Hty. unfold does_clause_match.
  destruct (clause_id =? 0) eqn:H0; [apply Z.eqb_eq in H0; lia|].
  destruct (clause_id <? 0) eqn:Hlt; [apply Z.ltb_lt in Hlt; lia|].
  rewrite Hty. reflexivity.
Qed.

Lemma does_clause_match_typed (throw_type obj p : ptr) (clause_id catch_type : Z) :
  0 < clause_id ->
  array_get type_table (clause_id - 1) = Some catch_type ->
  catch_type <> NULL ->
  clause_match throw_type obj p clause_id =
    Some (can_catch catch_type throw_type p,
          [{| call_catch_type := catch_type;
              call_throw_type := throw_type;
              call_adjusted := p |}]).
Proof.
  intros Hpos Hty Hnull. unfold does_clause_match.
  destruct (clause_id =? 0) eqn:H0; [apply Z.eqb_eq in H0; lia|].
  destruct (clause_id <? 0) eqn:Hlt; [apply Z.ltb_lt in Hlt; lia|].
  rewrite Hty. cbn [lift]. rewrite bind_ret.
  apply Z.eqb_neq in Hnull. rewrite Hnull. reflexivity.
Qed.

(** *** The walk over a clause list *)

Lemma does_frame_match_loop_end (fuel : nat) (throw_type obj p : ptr) :
  frame_match_loop fuel throw_type obj p 0 = Some ((None, p), []).
Proof. destruct fuel; reflexivity. Qed.

Lemma does_frame_match_loop_node (fuel : nat) (throw_type obj p id : ptr)
    (e : action_table_entry) :
  id <> 0 ->
  array_get action_table (id - 1) = Some e ->
  frame_match_loop (S fuel) throw_type obj p id =
    (let* (matched, p') := clause_match throw_type obj p (clause_id e) in
     if matched then ret (Some (clause_id e), p')
     else frame_match_loop fuel throw_type obj p' (to_int32 (next_clause_list_id e))).
Proof.
  intros Hid He. cbn [does_frame_match_loop].
  apply Z.eqb_neq in Hid. rewrite Hid, He. cbn [lift]. rewrite bind_ret.
  reflexivity.
Qed.

Lemma first_match_computed (fuel : nat) (throw_type obj p id : ptr)
    (l : list action_table_entry) (r : option Z * ptr) (log : list can_catch_call) :
  clause_list action_table id l ->
  first_match can_catch type_table filter_table throw_type obj p l r log ->
  (length l < fuel)%nat ->
  frame_match_loop fuel throw_type obj p id = Some (r, log).
Proof.
  intros Hl. revert fuel p r log.
  induction Hl as [|id e l Hid He Hl IH]; intros fuel p r log Hfm Hfuel.
  - inversion Hfm; subst. apply does_frame_match_loop_end.
  - destruct fuel as [|fuel]; [simpl in Hfuel; lia|].
    rewrite (does_frame_match_loop_node _ _ _ _ _ _ Hid He).
    inversion Hfm; subst.
    + erewrite bind_eq_Some; [|eassumption|reflexivity].
      rewrite app_nil_r. reflexivity.
    + eapply bind_eq_Some; [eassumption|].
      apply IH; [assumption|simpl in Hfuel; lia].
Qed.

Lemma computed_first_match (fuel : nat) (throw_type obj p id : ptr)
    (l : list action_table_entry) (r : option Z * ptr) (log : list can_catch_call) :
  clause_list action_table id l ->
  frame_match_loop fuel throw_type obj p id = Some (r, log) ->
  first_match can_catch type_table filter_table throw_type obj p l r log.
Proof.
  intros Hl. revert fuel p r log.
  induction Hl as [|id e l Hid He Hl IH]; intros fuel p r log Hrun.
  - rewrite does_frame_match_loop_end in Hrun. injection Hrun as <- <-.
    constructor.
  - destruct fuel as [|fuel].
    { cbn [does_frame_match_loop] in Hrun. apply Z.eqb_neq in Hid.
      rewrite Hid in Hrun. discriminate. }
    rewrite (does_frame_match_loop_node _ _ _ _ _ _ Hid He) in Hrun.
    apply bind_Some in Hrun as ([matched p'] & l1 & l2 & Hm & Hrest & ->).
    destruct matched.
    + injection Hrest as <- <-. rewrite app_nil_r.
      apply first_match_here. assumption.
    + eapply first_match_later; [eassumption|]. eapply IH. eassumption.
Qed.

(** Before the entry a walk returns, every entry was rejected. *)
Lemma first_match_split (throw_type obj p : ptr) (l : list action_table_entry)
    (r : option Z * ptr) (log : list can_catch_call) :
  first_match can_catch type_table filter_table throw_type obj p l r log ->
  match r.1 with
  | Some c =>
      exists pre e post q lg,
        l = pre ++ e :: post /\ clause_id e = c /\
        clause_match throw_type obj q (clause_id e) = Some ((true, r.2), lg) /\
        Forall (fun e' => exists q1 q2 lg',
                  clause_match throw_type obj q1 (clause_id e')
                    = Some ((false, q2), lg')) pre
  | None =>
      Forall (fun e' => exists q1 q2 lg',
                clause_match throw_type obj q1 (clause_id e')
                  = Some ((false, q2), lg')) l
  end.
Proof.
  induction 1 as [p|p p' e l log Hm|p p' e l r log log' Hm Hrest IH]; simpl.
  - constructor.
  - exists [], e, l, p, log. repeat split; [assumption|constructor].
  - destruct r as [[c|] pr]; simpl in *.
    + destruct IH as (pre & e' & post & q & lg & -> & Hc & Hacc & Hrej).
      exists (e :: pre), e', post, q, lg. repeat split; try assumption.
      constructor; [eauto|assumption].
    + constructor; [eauto|assumption].
Qed.

Lemma does_frame_match_loop_clause (fuel : nat) (throw_type obj p id : ptr)
    (c : Z) (p' : ptr) (log : list can_catch_call) :
  frame_match_loop fuel throw_type obj p id = Some ((Some c, p'), log) ->
  exists e, e ∈ action_table /\ clause_id e = c.
Proof.
  revert p id log. induction fuel as [|fuel IH]; intros p id log Hrun.
  - cbn [does_frame_match_loop] in Hrun.
    destruct (id =? 0); discriminate.
  - cbn [does_frame_match_loop] in Hrun.
    destruct (id =? 0); [discriminate|].
    apply bind_Some in Hrun as (e & l1 & l2 & He & Hrun & ->).
    destruct (array_get action_table (id - 1)) as [e'|] eqn:Hget; [|discriminate].
    injection He as <- <-.
    apply bind_Some in Hrun as ([matched p1] & l3 & l4 & Hm & Hrun & ->).
    destruct matched.
    + injection Hrun as <- <- <-. exists e'. split; [|reflexivity].
      unfold array_get in Hget. destruct (id - 1 <? 0); [discriminate|].
      eapply list_elem_of_lookup_2. eassumption.
    + eapply IH. eassumption.
Qed.

(** *** The walks over the frames *)

Local Abbreviation search_loop :=
  (find_match_loop can_catch action_table type_table filter_table).
Local Abbreviation search :=
  (find_match can_catch action_table type_table filter_table).
Local Abbreviation probe_loop :=
  (is_exception_caught_loop can_catch action_table type_table filter_table
     is_exception_caught_obj).
Local Abbreviation probe :=
  (is_exception_caught can_catch action_table type_table filter_table
     is_exception_caught_obj).

Lemma find_match_loop_NULL (n fuel : nat) (fs : gmap Z exception_frame)
    (throw_type obj p : ptr) :
  search_loop n fuel fs throw_type obj p NULL = Some ((None, p), []).
Proof. destruct n; reflexivity. Qed.

Lemma find_match_loop_frame (n fuel : nat) (fs : gmap Z exception_frame)
    (throw_type obj p a : ptr) (fr : exception_frame) :
  a <> NULL ->
  fs !! a = Some fr ->
  search_loop (S n) fuel fs throw_type obj p a =
    (let* (matched, p') := frame_match fuel throw_type obj p fr in
     match matched with
     | Some c => ret (Some (a, c), p')
     | None => search_loop n fuel fs throw_type obj p' (next fr)
     end).
Proof.
  intros Ha Hfr. cbn [find_match_loop].
  apply Z.eqb_neq in Ha. rewrite Ha, Hfr. cbn [lift]. rewrite bind_ret.
  reflexivity.
Qed.

Lemma is_exception_caught_loop_NULL (n fuel : nat) (fs : gmap Z exception_frame)
    (throw_type p : ptr) :
  probe_loop n fuel fs throw_type p NULL = Some (false, []).
Proof. destruct n; reflexivity. Qed.

Lemma is_exception_caught_loop_frame (n fuel : nat) (fs : gmap Z exception_frame)
    (throw_type p a : ptr) (fr : exception_frame) :
  a <> NULL ->
  fs !! a = Some fr ->
  probe_loop (S n) fuel fs throw_type p a =
    (let* (matched, p') :=
       frame_match fuel throw_type is_exception_caught_obj p fr in
     match matched with
     | Some c =>
         if negb (c =? 0) then ret true
         else probe_loop n fuel fs throw_type p' (next fr)
     | None => probe_loop n fuel fs throw_type p' (next fr)
     end).
Proof.
  intros Ha Hfr. cbn [is_exception_caught_loop].
  apply Z.eqb_neq in Ha. rewrite Ha, Hfr. cbn [lift]. rewrite bind_ret.
  reflexivity.
Qed.

(** A frame the search returns is on the chain; the frames after it
    form the chain from its [next]. *)
Lemma find_match_loop_found (n fuel : nat) (fs : gmap Z exception_frame)
    (throw_type obj p a F : ptr) (c : Z) (p' : ptr)
    (log : list can_catch_call) (l : list ptr) :
  search_loop n fuel fs throw_type obj p a = Some ((Some (F, c), p'), log) ->
  stack_chain fs a l ->
  exists inner outer fr,
    l = inner ++ F :: outer /\ fs !! F = Some fr /\
    stack_chain fs (next fr) outer /\
    exists e, e ∈ action_table /\ clause_id e = c.
Proof.
  intros Hrun Hl. revert n p log Hrun.
  induction Hl as [|a fr l Ha Hfr Hl IH]; intros n p log Hrun.
  - rewrite find_match_loop_NULL in Hrun. discriminate.
  - destruct n as [|n].
    { cbn [find_match_loop] in Hrun. apply Z.eqb_neq in Ha.
      rewrite Ha in Hrun. discriminate. }
    rewrite (find_match_loop_frame _ _ _ _ _ _ _ _ Ha Hfr) in Hrun.
    apply bind_Some in Hrun as ([matched p1] & l1 & l2 & Hm & Hrun & ->).
    destruct matched as [c'|].
    + injection Hrun as <- <- <- <-.
      exists [], l, fr. split; [reflexivity|]. split; [assumption|].
      split; [assumption|].
      eapply does_frame_match_loop_clause. exact Hm.
    + destruct (IH _ _ _ Hrun) as (inner & outer & fr' & -> & Hfr' & Hout & He).
      exists (a :: inner), outer, fr'. auto.
Qed.



(** *** [handle_exception] *)

Local Abbreviation object_of :=
  (get_object_from_ue sizeof_Unwind_Exception kOurDependentExceptionClass).
Local Abbreviation handle :=
  (handle_exception can_catch action_table type_table filter_table
     sizeof_Unwind_Exception kOurDependentExceptionClass
     handle_exception_obj is_exception_caught_obj).
Local Abbreviation raise :=
  (__pnacl_eh_sjlj_Unwind_RaiseException can_catch action_table type_table
     filter_table sizeof_Unwind_Exception kOurDependentExceptionClass
     handle_exception_obj is_exception_caught_obj).
Local Abbreviation resume :=
  (__pnacl_eh_resume can_catch action_table type_table
     filter_table sizeof_Unwind_Exception kOurDependentExceptionClass
     handle_exception_obj is_exception_caught_obj
     __cxa_begin_catch).

(** The stores and the copy that follow the search, in program order. *)
Lemma commit_steps (ue_header F obj : ptr) (c : Z) (xh : cxa_exception)
    (fr : exception_frame) (st : state) :
  exceptions st !! ue_header = Some xh ->
  frames st !! F = Some fr ->
  (let st := set_eh_stack (next fr) st in
   let* st := store_exception ue_header (with_adjustedPtr obj) st in
   let* st := store_exception ue_header (with_handlerSwitchValue c) st in
   let* fr := lift (frames st !! F) in
   let jmpbuf_copy := payload fr in
   let* st :=
     store_frame F
       (with_payload
          (as_result {| exception_obj := ue_header;
                        matched_clause_id := to_uint32 c |})) st in
   ret (Longjmp (R := unit) jmpbuf_copy 1 st)) =
  Some (Longjmp (payload fr) 1 (landed ue_header F obj c xh fr st), []).
Proof.
  intros Hxh Hfr. cbv zeta.
  unfold store_exception, store_frame, set_eh_stack, set_exception, set_frame,
    landed, bind, lift, ret.
  simpl. rewrite Hxh. simpl. rewrite lookup_insert_eq. simpl.
  rewrite Hfr. simpl. rewrite insert_insert_eq. reflexivity.
Qed.

Lemma handle_exception_no_match (fuel : nat) (ue_header : ptr) (check : bool)
    (st : state) (xh : cxa_exception) (p' : ptr) (log : list can_catch_call) :
  exceptions st !! ue_header = Some xh ->
  search fuel (frames st) (exceptionType xh) handle_exception_obj
    (object_of ue_header xh) (__pnacl_eh_stack st) = Some ((None, p'), log) ->
  handle fuel ue_header check st = Some (Return tt st, log).
Proof.
  intros Hxh Hsearch. unfold handle_exception.
  rewrite Hxh. cbn [lift]. rewrite bind_ret.
  erewrite bind_eq_Some; [|exact Hsearch|reflexivity].
  rewrite app_nil_r. reflexivity.
Qed.

Lemma handle_exception_enters (fuel : nat) (ue_header : ptr) (check : bool)
    (st : state) (xh : cxa_exception) (F : ptr) (c : Z) (obj' : ptr)
    (fr : exception_frame) (log : list can_catch_call) :
  exceptions st !! ue_header = Some xh ->
  search fuel (frames st) (exceptionType xh) handle_exception_obj
    (object_of ue_header xh) (__pnacl_eh_stack st) = Some ((Some (F, c), obj'), log) ->
  frames st !! F = Some fr ->
  check && (c =? 0) = false ->
  handle fuel ue_header check st =
    Some (Longjmp (payload fr) 1 (landed ue_header F obj' c xh fr st), log).
Proof.
  intros Hxh Hsearch Hfr Hcheck. unfold handle_exception.
  rewrite Hxh. cbn [lift]. rewrite bind_ret.
  erewrite bind_eq_Some; [|exact Hsearch|].
  { rewrite app_nil_r. reflexivity. }
  cbv beta iota. rewrite Hfr. cbn [lift]. rewrite bind_ret.
  rewrite Hcheck. rewrite bind_ret. cbv beta iota.
  apply commit_steps; assumption.
Qed.

Lemma handle_exception_probes (fuel : nat) (ue_header : ptr)
    (st : state) (xh : cxa_exception) (F obj' : ptr)
    (fr : exception_frame) (caught : bool) (log1 log2 : list can_catch_call) :
  exceptions st !! ue_header = Some xh ->
  search fuel (frames st) (exceptionType xh) handle_exception_obj
    (object_of ue_header xh) (__pnacl_eh_stack st) = Some ((Some (F, 0), obj'), log1) ->
  frames st !! F = Some fr ->
  probe fuel (frames st) (exceptionType xh) obj' (next fr) = Some (caught, log2) ->
  handle fuel ue_header true st =
    Some (if caught
          then Longjmp (payload fr) 1 (landed ue_header F obj' 0 xh fr st)
          else Return tt st,
          log1 ++ log2).
Proof.
  intros Hxh Hsearch Hfr Hprobe. unfold handle_exception.
  rewrite Hxh. cbn [lift]. rewrite bind_ret.
  eapply bind_eq_Some; [exact Hsearch|].
  cbv beta iota. rewrite Hfr. cbn [lift]. rewrite bind_ret.
  cbn [andb Z.eqb].
  erewrite (bind_eq_Some (let* caught := _ in _));
    [|erewrite bind_eq_Some; [|exact Hprobe|reflexivity]; reflexivity|].
  { rewrite !app_nil_r. reflexivity. }
  destruct caught; cbn [negb].
  - apply commit_steps; assumption.
  - reflexivity.
Qed.

(** *** The claims about the matcher *)




(** *** More fuel changes no result *)

Lemma does_frame_match_loop_mono (n m : nat) (throw_type obj p id : ptr)
    (r : (option Z * ptr) * list can_catch_call) :
  frame_match_loop n throw_type obj p id = Some r ->
  (n <= m)%nat ->
  frame_match_loop m throw_type obj p id = Some r.
Proof.
  revert m p id r.
  induction n as [|n IH]; intros m p id [r log] Hrun Hle.
  - cbn [does_frame_match_loop] in Hrun.
    destruct (id =? 0) eqn:Hid; [|discriminate].
    apply Z.eqb_eq in Hid. subst id.
    rewrite does_frame_match_loop_end. exact Hrun.
  - destruct m as [|m]; [lia|].
    cbn [does_frame_match_loop] in Hrun |- *.
    destruct (id =? 0); [exact Hrun|].
    apply bind_Some in Hrun as (e & l1 & l2 & He & Hrun & ->).
    apply bind_Some in Hrun as ([matched p'] & l3 & l4 & Hm & Hrun & ->).
    eapply bind_eq_Some; [exact He|].
    eapply bind_eq_Some; [exact Hm|].
    destruct matched; [exact Hrun|].
    apply IH; [exact Hrun|lia].
Qed.

Lemma find_match_loop_mono (n n' fuel fuel' : nat) (fs : gmap Z exception_frame)
    (throw_type obj p a : ptr)
    (r : (option (ptr * Z) * ptr) * list can_catch_call) :
  search_loop n fuel fs throw_type obj p a = Some r ->
  (n <= n')%nat -> (fuel <= fuel')%nat ->
  search_loop n' fuel' fs throw_type obj p a = Some r.
Proof.
  revert n' p a r.
  induction n as [|n IH]; intros n' p a [r log] Hrun Hle Hfuel.
  - cbn [find_match_loop] in Hrun.
    destruct (a =? NULL) eqn:Ha; [|discriminate].
    apply Z.eqb_eq in Ha. subst a.
    rewrite find_match_loop_NULL. exact Hrun.
  - destruct n' as [|n']; [lia|].
    cbn [find_match_loop] in Hrun |- *.
    destruct (a =? NULL); [exact Hrun|].
    apply bind_Some in Hrun as (fr & l1 & l2 & Hfr & Hrun & ->).
    apply bind_Some in Hrun as ([matched p'] & l3 & l4 & Hm & Hrun & ->).
    eapply bind_eq_Some; [exact Hfr|].
    eapply bind_eq_Some.
    { unfold does_frame_match in Hm |- *.
      eapply does_frame_match_loop_mono; eassumption. }
    destruct matched as [c|]; [exact Hrun|].
    apply IH; [exact Hrun|lia|assumption].
Qed.

Lemma is_exception_caught_loop_mono (n n' fuel fuel' : nat)
    (fs : gmap Z exception_frame) (throw_type p a : ptr)
    (r : bool * list can_catch_call) :
  probe_loop n fuel fs throw_type p a = Some r ->
  (n <= n')%nat -> (fuel <= fuel')%nat ->
  probe_loop n' fuel' fs throw_type p a = Some r.
Proof.
  revert n' p a r.
  induction n as [|n IH]; intros n' p a [r log] Hrun Hle Hfuel.
  - cbn [is_exception_caught_loop] in Hrun.
    destruct (a =? NULL) eqn:Ha; [|discriminate].
    apply Z.eqb_eq in Ha. subst a.
    rewrite is_exception_caught_loop_NULL. exact Hrun.
  - destruct n' as [|n']; [lia|].
    cbn [is_exception_caught_loop] in Hrun |- *.
    destruct (a =? NULL); [exact Hrun|].
    apply bind_Some in Hrun as (fr & l1 & l2 & Hfr & Hrun & ->).
    apply bind_Some in Hrun as ([matched p'] & l3 & l4 & Hm & Hrun & ->).
    eapply bind_eq_Some; [exact Hfr|].
    eapply bind_eq_Some.
    { unfold does_frame_match in Hm |- *.
      eapply does_frame_match_loop_mono; eassumption. }
    destruct matched as [c|].
    + destruct (negb (c =? 0)); [exact Hrun|].
      apply IH; [exact Hrun|lia|assumption].
    + apply IH; [exact Hrun|lia|assumption].
Qed.

Lemma handle_exception_mono (fuel fuel' : nat) (ue_header : ptr) (check : bool)
    (st : state) (r : outcome unit * list can_catch_call) :
  handle fuel ue_header check st = Some r ->
  (fuel <= fuel')%nat ->
  handle fuel' ue_header check st = Some r.
Proof.
  destruct r as [o log]. intros Hrun Hle. unfold handle_exception in Hrun |- *.
  apply bind_Some in Hrun as (xh & l1 & l2 & Hxh & Hrun & ->).
  apply bind_Some in Hrun as ([found obj'] & l3 & l4 & Hsearch & Hrun & ->).
  eapply bind_eq_Some; [exact Hxh|].
  eapply bind_eq_Some.
  { unfold find_match in Hsearch |- *.
    eapply find_match_loop_mono; eassumption. }
  destruct found as [[F c]|]; [|exact Hrun].
  apply bind_Some in Hrun as (fr & l5 & l6 & Hfr & Hrun & ->).
  apply bind_Some in Hrun as (uncaught & l7 & l8 & Hprobe & Hrun & ->).
  eapply bind_eq_Some; [exact Hfr|].
  eapply bind_eq_Some; [|exact Hrun].
  destruct (check && (c =? 0)); [|exact Hprobe].
  apply bind_Some in Hprobe as (caught & l9 & l10 & Hp & Hu & ->).
  eapply bind_eq_Some; [|exact Hu].
  unfold is_exception_caught in Hp |- *.
  eapply is_exception_caught_loop_mono; eassumption.
Qed.

(** *** Cleanup frames above a handler *)

Lemma cleanup_only_matches (fuel : nat) (throw_type obj p : ptr)
    (fr : exception_frame) :
  cleanup_only action_table fr = true ->
  frame_match (S fuel) throw_type obj p fr = Some ((Some 0, p), []).
Proof.
  unfold cleanup_only, does_frame_match. intros H.
  destruct (array_get action_table (to_int32 (clause_list_id fr) - 1))
    as [e|] eqn:He; [|discriminate].
  apply andb_true_iff in H as [H Hnext]. apply andb_true_iff in H as [Hid Hc].
  apply negb_true_iff, Z.eqb_neq in Hid. apply Z.eqb_eq in Hc.
  rewrite (does_frame_match_loop_node _ _ _ _ _ _ Hid He), Hc.
  rewrite does_clause_match_cleanup. reflexivity.
Qed.

Lemma catches_first_matches (fuel : nat) (throw_type obj p : ptr)
    (fr : exception_frame) (c : Z) :
  catches_first can_catch action_table type_table throw_type p fr = Some c ->
  c <> 0 /\
  exists p' call,
    frame_match (S fuel) throw_type obj p fr = Some ((Some c, p'), [call]).
Proof.
  unfold catches_first, does_frame_match. intros H.
  destruct (array_get action_table (to_int32 (clause_list_id fr) - 1))
    as [e|] eqn:He; [|discriminate].
  destruct (array_get type_table (clause_id e - 1)) as [ty|] eqn:Hty;
    [|discriminate].
  destruct (negb (to_int32 (clause_list_id fr) =? 0) && (0 <? clause_id e)
            && negb (ty =? NULL) && (can_catch ty throw_type p).1) eqn:Hall;
    [|discriminate].
  injection H as <-.
  apply andb_true_iff in Hall as [Hall Hcatch].
  apply andb_true_iff in Hall as [Hall Hnull].
  apply andb_true_iff in Hall as [Hid Hpos].
  apply negb_true_iff, Z.eqb_neq in Hid. apply negb_true_iff, Z.eqb_neq in Hnull.
  apply Z.ltb_lt in Hpos.
  split; [lia|].
  rewrite (does_frame_match_loop_node _ _ _ _ _ _ Hid He).
  rewrite (does_clause_match_typed _ _ _ _ _ Hpos Hty Hnull).
  destruct (can_catch ty throw_type p) as [caught p'] eqn:Hcc.
  simpl in Hcatch. subst caught. eexists _, _. reflexivity.
Qed.

Lemma probe_loop_reaches_handler (n fuel : nat) (fs : gmap Z exception_frame)
    (throw_type p a h : ptr) (hfr : exception_frame) (c : Z)
    (cs outer : list ptr) :
  stack_chain fs a (cs ++ h :: outer) ->
  (forall b, b ∈ cs ->
     exists fr, fs !! b = Some fr /\ cleanup_only action_table fr = true) ->
  fs !! h = Some hfr ->
  catches_first can_catch action_table type_table throw_type p hfr = Some c ->
  (length cs < n)%nat ->
  exists call, probe_loop n (S fuel) fs throw_type p a = Some (true, [call]).
Proof.
  intros Hl Hcs Hh Hc. revert a n Hl Hcs.
  induction cs as [|b cs IH]; intros a n Hl Hcs Hn.
  - simpl in Hl.
    apply stack_chain_cons_inv in Hl as (-> & Ha & fr & Hfr & Hl').
    rewrite Hh in Hfr. injection Hfr as <-.
    destruct n as [|n]; [simpl in Hn; lia|].
    rewrite (is_exception_caught_loop_frame _ _ _ _ _ _ _ Ha Hh).
    destruct (catches_first_matches fuel throw_type is_exception_caught_obj
                p hfr c Hc) as (Hne & p' & call & Hm).
    exists call. erewrite bind_eq_Some; [|exact Hm|].
    { reflexivity. }
    cbv beta iota. apply Z.eqb_neq in Hne. rewrite Hne. reflexivity.
  - simpl in Hl.
    apply stack_chain_cons_inv in Hl as (-> & Ha & fr & Hfr & Hl').
    destruct (Hcs b) as (fr' & Hfr' & Hclean); [apply elem_of_cons; auto|].
    rewrite Hfr in Hfr'. injection Hfr' as <-.
    destruct n as [|n]; [simpl in Hn; lia|].
    rewrite (is_exception_caught_loop_frame _ _ _ _ _ _ _ Ha Hfr).
    destruct (IH (next fr) n) as (call & Hrun).
    { assumption. }
    { intros b' Hb'. apply Hcs. apply elem_of_cons. auto. }
    { simpl in Hn. lia. }
    exists call.
    erewrite bind_eq_Some;
      [|apply cleanup_only_matches; assumption|exact Hrun].
    reflexivity.
Qed.

Lemma find_match_cleanup_top (fuel : nat) (fs : gmap Z exception_frame)
    (throw_type obj p a : ptr) (fr : exception_frame) :
  a <> NULL ->
  fs !! a = Some fr ->
  cleanup_only action_table fr = true ->
  search (S fuel) fs throw_type obj p a = Some ((Some (a, 0), p), []).
Proof.
  intros Ha Hfr Hclean. unfold find_match.
  rewrite (find_match_loop_frame _ _ _ _ _ _ _ _ Ha Hfr).
  rewrite (cleanup_only_matches _ _ _ _ _ Hclean). reflexivity.
Qed.

Lemma find_match_handler_top (fuel : nat) (fs : gmap Z exception_frame)
    (throw_type obj p a : ptr) (fr : exception_frame) (c : Z) :
  a <> NULL ->
  fs !! a = Some fr ->
  catches_first can_catch action_table type_table throw_type p fr = Some c ->
  c <> 0 /\
  exists p' call,
    search (S fuel) fs throw_type obj p a = Some ((Some (a, c), p'), [call]).
Proof.
  intros Ha Hfr Hc. unfold find_match.
  destruct (catches_first_matches fuel throw_type obj p fr c Hc)
    as (Hne & p' & call & Hm).
  split; [assumption|]. exists p', call.
  rewrite (find_match_loop_frame _ _ _ _ _ _ _ _ Ha Hfr), Hm. reflexivity.
Qed.

Local Abbreviation resume_landingpads :=
  (resume_cleanups can_catch action_table type_table
     filter_table sizeof_Unwind_Exception kOurDependentExceptionClass
     handle_exception_obj is_exception_caught_obj
     __cxa_begin_catch).
Local Abbreviation unwinding :=
  (unwind can_catch action_table type_table
     filter_table sizeof_Unwind_Exception kOurDependentExceptionClass
     handle_exception_obj is_exception_caught_obj
     __cxa_begin_catch).

Lemma resume_enters (fuel : nat) (ue_header : ptr)
    (st : state) (xh : cxa_exception) (F : ptr) (c : Z) (obj' : ptr)
    (fr : exception_frame) (log : list can_catch_call) :
  exceptions st !! ue_header = Some xh ->
  search fuel (frames st) (exceptionType xh) handle_exception_obj
    (object_of ue_header xh) (__pnacl_eh_stack st) = Some ((Some (F, c), obj'), log) ->
  frames st !! F = Some fr ->
  resume fuel ue_header st =
    Some (Longjmp (payload fr) 1 (landed ue_header F obj' c xh fr st), log).
Proof.
  intros Hxh Hsearch Hfr. unfold __pnacl_eh_resume.
  rewrite (handle_exception_enters fuel ue_header false st xh F c obj' fr log
             Hxh Hsearch Hfr eq_refl).
  unfold bind, ret. rewrite app_nil_r. reflexivity.
Qed.

Lemma resume_cleanups_stop (k fuel : nat) (ue_header : ptr) (st : state)
    (xh : cxa_exception) :
  exceptions st !! ue_header = Some xh ->
  handlerSwitchValue xh <> 0 ->
  resume_landingpads k fuel ue_header st = Some (unwind_caught st, []).
Proof.
  intros Hxh Hne. apply Z.eqb_neq in Hne.
  destruct k; cbn [resume_cleanups]; rewrite Hxh; cbn [lift];
    rewrite bind_ret, Hne; reflexivity.
Qed.

Lemma resume_cleanups_step (k fuel : nat) (ue_header : ptr) (st : state)
    (xh : cxa_exception) :
  exceptions st !! ue_header = Some xh ->
  handlerSwitchValue xh = 0 ->
  resume_landingpads (S k) fuel ue_header st =
    (let* o := resume fuel ue_header st in
     match o with
     | Return r _ => match r with end
     | Longjmp _ _ st' => resume_landingpads k fuel ue_header st'
     | Terminate st' => ret (unwind_terminated st')
     end).
Proof.
  intros Hxh H0. cbn [resume_cleanups]. rewrite Hxh. cbn [lift].
  rewrite bind_ret, H0. reflexivity.
Qed.

Lemma object_of_landed (ue_header obj : ptr) (c : Z) (xh : cxa_exception) :
  object_of ue_header (with_handlerSwitchValue c (with_adjustedPtr obj xh)) =
  object_of ue_header xh.
Proof. reflexivity. Qed.

Lemma resume_cleanups_run (fuel : nat) (ue_header throw_type obj h : ptr)
    (hfr : exception_frame) (c : Z) (outer cs : list ptr) :
  forall (k : nat) (st : state) (xh : cxa_exception),
  stack_chain (frames st) (__pnacl_eh_stack st) (cs ++ h :: outer) ->
  (forall b, b ∈ cs ->
     exists fr, frames st !! b = Some fr /\ cleanup_only action_table fr = true) ->
  frames st !! h = Some hfr ->
  catches_first can_catch action_table type_table throw_type obj hfr = Some c ->
  exceptions st !! ue_header = Some xh ->
  handlerSwitchValue xh = 0 ->
  exceptionType xh = throw_type ->
  object_of ue_header xh = obj ->
  (length cs < k)%nat ->
  exists st' call,
    resume_landingpads k (S fuel) ue_header st = Some (unwind_caught st', [call]) /\
    __pnacl_eh_stack st' = next hfr.
Proof.
  induction cs as [|b cs IH];
    intros k st xh Hl Hcs Hh Hc Hxh Hsw Hty Hobj Hk;
    (destruct k as [|k]; [simpl in Hk; lia|]);
    simpl in Hl;
    apply stack_chain_cons_inv in Hl as (Htop & Ha & fr & Hfr & Hl');
    rewrite (resume_cleanups_step _ _ _ _ _ Hxh Hsw).
  - rewrite Hh in Hfr. injection Hfr as <-.
    destruct (find_match_handler_top fuel (frames st) throw_type
                handle_exception_obj obj h hfr c Ha Hh Hc)
      as (Hne & p' & call & Hsearch0).
    assert (Hsearch :
      search (S fuel) (frames st) (exceptionType xh) handle_exception_obj
        (object_of ue_header xh) (__pnacl_eh_stack st) =
      Some ((Some (h, c), p'), [call]))
      by (rewrite Htop, Hty, Hobj; exact Hsearch0).
    rewrite (resume_enters _ _ _ _ _ _ _ _ _ Hxh Hsearch Hh).
    exists (landed ue_header h p' c xh hfr st), call.
    split; [|reflexivity].
    erewrite bind_eq_Some; [|reflexivity|].
    { reflexivity. }
    cbv beta iota.
    eapply resume_cleanups_stop.
    + unfold landed. cbn [exceptions]. apply lookup_insert_eq.
    + exact Hne.
  - destruct (Hcs b) as (fr' & Hfr' & Hclean); [apply elem_of_cons; auto|].
    rewrite Hfr in Hfr'. injection Hfr' as <-.
    pose proof (find_match_cleanup_top fuel (frames st) throw_type
                  handle_exception_obj obj b fr Ha Hfr Hclean) as Hsearch0.
    assert (Hsearch :
      search (S fuel) (frames st) (exceptionType xh) handle_exception_obj
        (object_of ue_header xh) (__pnacl_eh_stack st) =
      Some ((Some (b, 0), object_of ue_header xh), []))
      by (rewrite Htop, Hty, Hobj; exact Hsearch0).
    rewrite (resume_enters _ _ _ _ _ _ _ _ _ Hxh Hsearch Hfr).
    assert (Hnotin : b ∉ cs ++ h :: outer).
    { eapply stack_chain_not_in_tail. econstructor; eassumption. }
    destruct (IH k (landed ue_header b (object_of ue_header xh) 0 xh fr st)
                (with_handlerSwitchValue 0
                   (with_adjustedPtr (object_of ue_header xh) xh)))
      as (st' & call & Hrun & Htop').
    + unfold landed. cbn [frames __pnacl_eh_stack].
      apply stack_chain_insert; assumption.
    + intros b' Hb'. unfold landed. cbn [frames].
      rewrite lookup_insert_ne.
      * apply Hcs. apply elem_of_cons. auto.
      * intros ->. apply Hnotin. apply elem_of_app. auto.
    + unfold landed. cbn [frames]. rewrite lookup_insert_ne; [assumption|].
      intros ->. apply Hnotin. apply elem_of_app. right.
      apply elem_of_cons. auto.
    + assumption.
    + unfold landed. cbn [exceptions]. apply lookup_insert_eq.
    + reflexivity.
    + exact Hty.
    + rewrite object_of_landed. exact Hobj.
    + simpl in Hk. lia.
    + exists st', call. split; [|assumption].
      erewrite bind_eq_Some; [|reflexivity|].
      { reflexivity. }
      cbv beta iota. exact Hrun.
Qed.

(** *** The claims about the dispatcher *)

Lemma raise_of_handle (fuel : nat) (ue_header : ptr) (st : state)
    (o : outcome unit) (log : list can_catch_call) :
  handle fuel ue_header true st = Some (o, log) ->
  raise fuel ue_header st =
    Some (match o with
          | Return _ st' => Return _URC_END_OF_STACK st'
          | Longjmp env val st' => Longjmp env val st'
          | Terminate st' => Terminate st'
          end, log).
Proof.
  intros H. unfold __pnacl_eh_sjlj_Unwind_RaiseException. rewrite H.
  unfold bind, ret. destruct o; rewrite app_nil_r; reflexivity.
Qed.

(** Whenever [handle_exception] longjmps, the search had found a frame
    and the probe, if one was due, had found a handler. *)
Lemma handle_exception_Longjmp_inv (fuel : nat) (ue_header : ptr)
    (check : bool) (st : state) (env : frame_union) (val : Z) (st' : state)
    (log : list can_catch_call) :
  handle fuel ue_header check st = Some (Longjmp env val st', log) ->
  exists xh F c obj' fr log1 log2,
    exceptions st !! ue_header = Some xh /\
    search fuel (frames st) (exceptionType xh) handle_exception_obj
      (object_of ue_header xh) (__pnacl_eh_stack st)
      = Some ((Some (F, c), obj'), log1) /\
    frames st !! F = Some fr /\
    (if check && (c =? 0)
     then (probe fuel (frames st) (exceptionType xh) obj' (next fr)
           = Some (true, log2))
     else (log2 = [])) /\
    env = payload fr /\ val = 1 /\
    st' = landed ue_header F obj' c xh fr st /\
    log = log1 ++ log2.
Proof.
  intros Hrun. unfold handle_exception in Hrun.
  apply bind_Some in Hrun as (xh & l1 & l2 & Hxh & Hrun & ->).
  destruct (exceptions st !! ue_header) as [xh'|] eqn:Hlook; [|discriminate].
  injection Hxh as <- <-.
  apply bind_Some in Hrun as ([found obj'] & l3 & l4 & Hsearch & Hrun & ->).
  destruct found as [[F c]|]; [|discriminate].
  apply bind_Some in Hrun as (fr & l5 & l6 & Hfr & Hrun & ->).
  destruct (frames st !! F) as [fr'|] eqn:HF; [|discriminate].
  injection Hfr as <- <-.
  apply bind_Some in Hrun as (uncaught & l7 & l8 & Hprobe & Hrun & ->).
  pose proof (commit_steps ue_header F obj' c xh' fr' st Hlook HF) as Hcommit.
  cbv zeta in Hcommit.
  exists xh', F, c, obj', fr', l3, l7.
  destruct (check && (c =? 0)) eqn:Hcheck.
  - apply bind_Some in Hprobe as (caught & l9 & l10 & Hp & Hu & ->).
    injection Hu as <- <-.
    destruct caught; cbv beta iota delta [negb] in Hrun; [|discriminate].
    rewrite Hcommit in Hrun. injection Hrun as <- <- <- <-.
    rewrite !app_nil_r. simpl. auto 10.
  - injection Hprobe as <- <-. cbv beta iota in Hrun.
    rewrite Hcommit in Hrun. injection Hrun as <- <- <- <-.
    rewrite !app_nil_r. simpl. auto 10.
Qed.

(** What the memory left by a commit at the frame [F] looks like. *)
Lemma landed_memory (n fuel : nat) (ue_header : ptr) (st : state)
    (xh : cxa_exception) (throw_type obj p F : ptr) (c : Z) (obj' : ptr)
    (fr : exception_frame) (log : list can_catch_call) (l : list ptr) :
  Forall (fun e => int32_range (clause_id e)) action_table ->
  stack_chain (frames st) (__pnacl_eh_stack st) l ->
  search_loop n fuel (frames st) throw_type obj p (__pnacl_eh_stack st)
    = Some ((Some (F, c), obj'), log) ->
  frames st !! F = Some fr ->
  exists inner outer,
    l = inner ++ F :: outer /\
    stack_chain (frames (landed ue_header F obj' c xh fr st)) (next fr) outer /\
    (F ∉ outer) /\
    to_int32 (to_uint32 c) = c.
Proof.
  intros Hrange Hl Hsearch Hfr.
  destruct (find_match_loop_found _ _ _ _ _ _ _ _ _ _ _ _ Hsearch Hl)
    as (inner & outer & fr' & Hsplit & Hfr' & Hout & e & He & Hc).
  rewrite Hfr in Hfr'. injection Hfr' as <-.
  assert (HF : F ∉ outer).
  { eapply stack_chain_not_in_tail. eapply stack_chain_from.
    rewrite <- Hsplit. exact Hl. }
  exists inner, outer. repeat split; try assumption.
  - unfold landed. cbn [frames]. apply stack_chain_insert; assumption.
  - apply to_int32_to_uint32. subst c.
    rewrite Forall_forall in Hrange. apply Hrange. assumption.
Qed.

(** C1.  [handle_exception] commits, that is longjmps, exactly when the
    search returns a frame [F] and a clause id [c] and the probe, if
    one is due, finds a handler.  Whenever it does, it longjmps with
    the value [1] on [F]'s storage as it was on entry, that is on the
    copy of the checkpoint taken before the result was written over
    it.  In the memory it leaves, [__pnacl_eh_stack] is [F]'s [next],
    so the frames before [F] and [F] itself are off the chain and the
    chain of the frames after [F] is as it was; no frame other than [F]
    has changed; the exception header has the adjusted pointer and [c],
    and nothing else in it has changed; and [F]'s storage holds the
    pair of the exception and [c] as a [uint32_t], which reads back as
    [c]. *)
Theorem handle_exception_commit_transfer (fuel : nat) (ue_header : ptr)
    (check_for_catch : bool) (st : state) (xh : cxa_exception) (l : list ptr) :
  Forall (fun e => int32_range (clause_id e)) action_table ->
  exceptions st !! ue_header = Some xh ->
  stack_chain (frames st) (__pnacl_eh_stack st) l ->
  (forall (F : ptr) (c : Z) (obj' : ptr) (fr : exception_frame)
      (log1 log2 : list can_catch_call),
    search fuel (frames st) (exceptionType xh) handle_exception_obj
      (object_of ue_header xh) (__pnacl_eh_stack st)
      = Some ((Some (F, c), obj'), log1) ->
    frames st !! F = Some fr ->
    (if check_for_catch && (c =? 0)
     then (probe fuel (frames st) (exceptionType xh) obj' (next fr)
           = Some (true, log2))
     else (log2 = [])) ->
    exists st',
      handle fuel ue_header check_for_catch st
        = Some (Longjmp (payload fr) 1 st', log1 ++ log2)) /\
  (forall (env : frame_union) (val : Z) (st' : state)
      (log : list can_catch_call),
    handle fuel ue_header check_for_catch st
      = Some (Longjmp env val st', log) ->
    exists (F : ptr) (c : Z) (obj' : ptr) (fr : exception_frame)
        (log1 : list can_catch_call) (inner outer : list ptr),
      search fuel (frames st) (exceptionType xh) handle_exception_obj
        (object_of ue_header xh) (__pnacl_eh_stack st)
        = Some ((Some (F, c), obj'), log1) /\
      frames st !! F = Some fr /\
      env = payload fr /\ val = 1 /\
      l = inner ++ F :: outer /\
      __pnacl_eh_stack st' = next fr /\
      stack_chain (frames st') (__pnacl_eh_stack st') outer /\
      (F ∉ outer) /\
      (forall a, a <> F -> frames st' !! a = frames st !! a) /\
      frames st' !! F =
        Some {| payload := as_result {| exception_obj := ue_header;
                                        matched_clause_id := to_uint32 c |};
                next := next fr;
                clause_list_id := clause_list_id fr |} /\
      to_int32 (to_uint32 c) = c /\
      exceptions st' !! ue_header =
        Some (with_handlerSwitchValue c (with_adjustedPtr obj' xh)) /\
      (forall a, a <> ue_header -> exceptions st' !! a = exceptions st !! a)).
Proof.
  intros Hrange Hxh Hl. split.
  - intros F c obj' fr log1 log2 Hsearch Hfr Hprobe.
    exists (landed ue_header F obj' c xh fr st).
    destruct (check_for_catch && (c =? 0)) eqn:Hcheck.
    + apply andb_true_iff in Hcheck as [-> Hc0]. apply Z.eqb_eq in Hc0.
      rewrite Hc0 in Hsearch |- *.
      apply (handle_exception_probes fuel ue_header st xh F obj' fr true
               log1 log2 Hxh Hsearch Hfr Hprobe).
    + subst log2. rewrite app_nil_r.
      apply handle_exception_enters; assumption.
  - intros env val st' log Hrun.
    apply handle_exception_Longjmp_inv in Hrun
      as (xh' & F & c & obj' & fr & log1 & log2 & Hxh' & Hsearch & Hfr & _
          & -> & -> & -> & ->).
    rewrite Hxh in Hxh'. injection Hxh' as <-.
    destruct (landed_memory fuel fuel ue_header st xh _ _ _ F c obj' fr log1 l
                Hrange Hl Hsearch Hfr)
      as (inner & outer & Hsplit & Hchain & HF & Hback).
    exists F, c, obj', fr, log1, inner, outer.
    split; [assumption|]. split; [assumption|].
    split; [reflexivity|]. split; [reflexivity|].
    split; [assumption|]. split; [reflexivity|].
    split; [exact Hchain|]. split; [assumption|].
    split.
    { intros a Ha. unfold landed. cbn [frames].
      apply lookup_insert_ne. congruence. }
    split.
    { unfold landed. cbn [frames]. apply lookup_insert_eq. }
    split; [assumption|]. split.
    { unfold landed. cbn [exceptions]. apply lookup_insert_eq. }
    intros a Ha. unfold landed. cbn [exceptions].
    apply lookup_insert_ne. congruence.
Qed.


(** C3, as amended.  Raising searches first.  When the first match is
    for a clause other than a cleanup, the landingpad is entered with
    no probe: the comparator is asked nothing beyond what the search
    asked.  When the first match, at the frame [F], is a cleanup, the
    probe is run from [F]'s [next], on the object pointer as the
    search left it, before anything is written; the landingpad is
    entered when the probe finds a handler, and otherwise raising
    returns with the memory as it was.  The pointer the probe adjusts
    is its own copy: the memory left is the same in both cases. *)
Theorem raise_probes_past_cleanup_match (fuel : nat) (ue_header : ptr)
    (st : state) (xh : cxa_exception) (F : ptr) (c : Z) (obj' : ptr)
    (fr : exception_frame) (log1 : list can_catch_call) :
  exceptions st !! ue_header = Some xh ->
  search fuel (frames st) (exceptionType xh) handle_exception_obj
    (object_of ue_header xh) (__pnacl_eh_stack st)
    = Some ((Some (F, c), obj'), log1) ->
  frames st !! F = Some fr ->
  (c <> 0 ->
   raise fuel ue_header st
     = Some (Longjmp (payload fr) 1 (landed ue_header F obj' c xh fr st), log1)) /\
  (c = 0 ->
   forall (caught : bool) (log2 : list can_catch_call),
     probe fuel (frames st) (exceptionType xh) obj' (next fr)
       = Some (caught, log2) ->
     raise fuel ue_header st
       = Some (if caught
               then Longjmp (payload fr) 1 (landed ue_header F obj' c xh fr st)
               else Return _URC_END_OF_STACK st,
               log1 ++ log2)).
Proof.
  intros Hxh Hsearch Hfr. split.
  - intros Hc.
    apply (raise_of_handle _ _ _
             (Longjmp (payload fr) 1 (landed ue_header F obj' c xh fr st))).
    apply handle_exception_enters; try assumption.
    apply Z.eqb_neq in Hc. rewrite Hc. reflexivity.
  - intros -> caught log2 Hprobe.
    rewrite (raise_of_handle _ _ _ _ _
               (handle_exception_probes fuel ue_header st xh F obj' fr caught
                  log1 log2 Hxh Hsearch Hfr Hprobe)).
    destruct caught; reflexivity.
Qed.

Lemma unwind_through_cleanups (k fuel : nat) (ue_header h : ptr)
    (hfr : exception_frame) (c : Z) (cs outer : list ptr)
    (st : state) (xh : cxa_exception) :
  exceptions st !! ue_header = Some xh ->
  stack_chain (frames st) (__pnacl_eh_stack st) (cs ++ h :: outer) ->
  (forall b, b ∈ cs ->
     exists fr, frames st !! b = Some fr /\ cleanup_only action_table fr = true) ->
  frames st !! h = Some hfr ->
  catches_first can_catch action_table type_table (exceptionType xh)
    (object_of ue_header xh) hfr = Some c ->
  (length cs < fuel)%nat ->
  (length cs <= k)%nat ->
  exists st' log,
    unwinding k fuel ue_header st = Some (unwind_caught st', log) /\
    __pnacl_eh_stack st' = next hfr /\
    (length log <= 2)%nat.
Proof.
  intros Hxh Hl Hcs Hh Hc Hfuel Hk.
  destruct fuel as [|fuel]; [lia|].
  unfold unwind. destruct cs as [|b cs]; simpl in Hl;
    apply stack_chain_cons_inv in Hl as (Htop & Ha & fr & Hfr & Hl').
  - rewrite Hh in Hfr. injection Hfr as <-.
    destruct (find_match_handler_top fuel (frames st) (exceptionType xh)
                handle_exception_obj (object_of ue_header xh) h hfr c Ha Hh Hc)
      as (Hne & p' & call & Hsearch0).
    assert (Hsearch :
      search (S fuel) (frames st) (exceptionType xh) handle_exception_obj
        (object_of ue_header xh) (__pnacl_eh_stack st) =
      Some ((Some (h, c), p'), [call]))
      by (rewrite Htop; exact Hsearch0).
    assert (Hcheck : true && (c =? 0) = false)
      by (apply Z.eqb_neq in Hne; rewrite Hne; reflexivity).
    rewrite (raise_of_handle _ _ _ _ _
               (handle_exception_enters (S fuel) ue_header true st xh h c p' hfr
                  [call] Hxh Hsearch Hh Hcheck)).
    exists (landed ue_header h p' c xh hfr st), [call].
    split; [|split; [reflexivity|simpl; lia]].
    erewrite bind_eq_Some; [|reflexivity|].
    { reflexivity. }
    cbv beta iota. eapply resume_cleanups_stop.
    + unfold landed. cbn [exceptions]. apply lookup_insert_eq.
    + exact Hne.
  - destruct (Hcs b) as (fr' & Hfr' & Hclean); [apply elem_of_cons; auto|].
    rewrite Hfr in Hfr'. injection Hfr' as <-.
    pose proof (find_match_cleanup_top fuel (frames st) (exceptionType xh)
                  handle_exception_obj (object_of ue_header xh) b fr Ha Hfr Hclean)
      as Hsearch0.
    assert (Hsearch :
      search (S fuel) (frames st) (exceptionType xh) handle_exception_obj
        (object_of ue_header xh) (__pnacl_eh_stack st) =
      Some ((Some (b, 0), object_of ue_header xh), []))
      by (rewrite Htop; exact Hsearch0).
    assert (Hcs' : forall b', b' ∈ cs ->
              exists fr', frames st !! b' = Some fr' /\
                          cleanup_only action_table fr' = true)
      by (intros b' Hb'; apply Hcs; apply elem_of_cons; auto).
    destruct (probe_loop_reaches_handler (S fuel) fuel (frames st)
                (exceptionType xh) (object_of ue_header xh) (next fr) h hfr c
                cs outer Hl' Hcs' Hh Hc) as (call1 & Hprobe).
    { simpl in Hfuel. lia. }
    rewrite (raise_of_handle _ _ _ _ _
               (handle_exception_probes (S fuel) ue_header st xh b
                  (object_of ue_header xh) fr true [] [call1]
                  Hxh Hsearch Hfr Hprobe)).
    assert (Hnotin : b ∉ cs ++ h :: outer).
    { eapply stack_chain_not_in_tail. econstructor; eassumption. }
    destruct (resume_cleanups_run fuel ue_header (exceptionType xh)
                (object_of ue_header xh) h hfr c outer cs k
                (landed ue_header b (object_of ue_header xh) 0 xh fr st)
                (with_handlerSwitchValue 0
                   (with_adjustedPtr (object_of ue_header xh) xh)))
      as (st' & call2 & Hrun & Htop').
    + unfold landed. cbn [frames __pnacl_eh_stack].
      apply stack_chain_insert; assumption.
    + intros b' Hb'. unfold landed. cbn [frames].
      rewrite lookup_insert_ne; [apply Hcs'; assumption|].
      intros ->. apply Hnotin. apply elem_of_app. auto.
    + unfold landed. cbn [frames]. rewrite lookup_insert_ne; [assumption|].
      intros ->. apply Hnotin. apply elem_of_app. right.
      apply elem_of_cons. auto.
    + assumption.
    + unfold landed. cbn [exceptions]. apply lookup_insert_eq.
    + reflexivity.
    + reflexivity.
    + apply object_of_landed.
    + simpl in Hk. lia.
    + exists st', ([call1] ++ [call2]). split; [|split; [assumption|simpl; lia]].
      eapply bind_eq_Some; [reflexivity|]. cbv beta iota. exact Hrun.
Qed.

(** C6.  Whatever frame the search finds, [__pnacl_eh_resume] enters
    the landingpad [handle_exception] would enter on a raise, with the
    same memory, and asks the comparator exactly what the search asks:
    no probe is run, where a raise that enters it has asked in addition
    what its probe asks.  When the search finds no frame it calls
    [__cxa_begin_catch] and then [std::terminate].  In a complete
    unwind through [length cs] frames that hold only a cleanup, above a
    frame whose first clause catches the exception, the handler is
    reached and the comparator is asked at most twice, whatever the
    number of cleanup frames. *)
Theorem resume_skips_probe_linear :
  (forall (fuel : nat) (ue_header : ptr) (st : state) (xh : cxa_exception)
      (F : ptr) (c : Z) (obj' : ptr) (fr : exception_frame)
      (log : list can_catch_call),
    exceptions st !! ue_header = Some xh ->
    search fuel (frames st) (exceptionType xh) handle_exception_obj
      (object_of ue_header xh) (__pnacl_eh_stack st)
      = Some ((Some (F, c), obj'), log) ->
    frames st !! F = Some fr ->
    resume fuel ue_header st
      = Some (Longjmp (payload fr) 1 (landed ue_header F obj' c xh fr st), log) /\
    (forall env val st' log',
       raise fuel ue_header st = Some (Longjmp env val st', log') ->
       env = payload fr /\ val = 1 /\
       st' = landed ue_header F obj' c xh fr st /\
       exists log2, log' = log ++ log2)) /\
  (forall (fuel : nat) (ue_header : ptr) (st : state) (xh : cxa_exception)
      (p' : ptr) (log : list can_catch_call),
    exceptions st !! ue_header = Some xh ->
    search fuel (frames st) (exceptionType xh) handle_exception_obj
      (object_of ue_header xh) (__pnacl_eh_stack st) = Some ((None, p'), log) ->
    resume fuel ue_header st
      = Some (Terminate (__cxa_begin_catch ue_header st), log)) /\
  (forall (k fuel : nat) (ue_header h : ptr) (hfr : exception_frame) (c : Z)
      (cs outer : list ptr) (st : state) (xh : cxa_exception),
    exceptions st !! ue_header = Some xh ->
    stack_chain (frames st) (__pnacl_eh_stack st) (cs ++ h :: outer) ->
    (forall b, b ∈ cs ->
       exists fr, frames st !! b = Some fr /\
                  cleanup_only action_table fr = true) ->
    frames st !! h = Some hfr ->
    catches_first can_catch action_table type_table (exceptionType xh)
      (object_of ue_header xh) hfr = Some c ->
    (length cs < fuel)%nat ->
    (length cs <= k)%nat ->
    exists st' log,
      unwinding k fuel ue_header st = Some (unwind_caught st', log) /\
      __pnacl_eh_stack st' = next hfr /\
      (length log <= 2)%nat /\
      (length log <= length cs + 1)%nat).
Proof.
  split; [|split].
  - intros fuel ue_header st xh F c obj' fr log Hxh Hsearch Hfr.
    split; [apply resume_enters; assumption|].
    intros env val st' log' Hraise.
    unfold __pnacl_eh_sjlj_Unwind_RaiseException in Hraise.
    apply bind_Some in Hraise as (o & l1 & l2 & Hhandle & Ho & ->).
    destruct (c =? 0) eqn:Hc.
    + apply Z.eqb_eq in Hc. subst c.
      unfold handle_exception in Hhandle.
      rewrite Hxh in Hhandle. cbn [lift] in Hhandle. rewrite bind_ret in Hhandle.
      apply bind_Some in Hhandle as ([found p1] & l3 & l4 & Hs & Hrest & ->).
      rewrite Hsearch in Hs. injection Hs as <- <- <-.
      cbv beta iota in Hrest. rewrite Hfr in Hrest. cbn [lift] in Hrest.
      rewrite bind_ret in Hrest. cbn [andb Z.eqb] in Hrest.
      apply bind_Some in Hrest as (uncaught & l5 & l6 & Hp & Hrest & ->).
      apply bind_Some in Hp as (caught & l7 & l8 & Hprobe & Hu & ->).
      injection Hu as <- <-.
      pose proof (handle_exception_probes fuel ue_header st xh F obj' fr caught
                    log l7 Hxh Hsearch Hfr Hprobe) as Hhandle.
      destruct caught; cbv beta iota delta [negb] in Hrest.
      * pose proof (commit_steps ue_header F obj' 0 xh fr st Hxh Hfr) as Hcommit.
        cbv zeta in Hcommit. rewrite Hcommit in Hrest.
        injection Hrest as <- <-. injection Ho as <- <- <- <-.
        repeat split. exists l7. rewrite !app_nil_r. reflexivity.
      * injection Hrest as <- <-. discriminate.
    + rewrite (handle_exception_enters fuel ue_header true st xh F c obj' fr log
                 Hxh Hsearch Hfr) in Hhandle by (rewrite Hc; reflexivity).
      injection Hhandle as <- <-. injection Ho as <- <- <- <-.
      repeat split. exists []. reflexivity.
  - intros fuel ue_header st xh p' log Hxh Hsearch.
    unfold __pnacl_eh_resume.
    rewrite (handle_exception_no_match fuel ue_header false st xh p' log
               Hxh Hsearch).
    unfold bind, ret. rewrite app_nil_r. reflexivity.
  - intros k fuel ue_header h hfr c cs outer st xh Hxh Hl Hcs Hh Hc Hfuel Hk.
    destruct (unwind_through_cleanups k fuel ue_header h hfr c cs outer st xh
                Hxh Hl Hcs Hh Hc Hfuel Hk) as (st' & log & Hrun & Htop & Hlen2).
    exists st', log. repeat split; try assumption.
    (* one invocation when there is no cleanup frame *)
    destruct cs as [|b cs]; [|simpl; lia].
    clear Hlen2. simpl.
    destruct fuel as [|fuel]; [simpl in Hfuel; lia|].
    simpl in Hl. apply stack_chain_cons_inv in Hl as (Htop0 & Ha & fr & Hfr & Hl').
    destruct (find_match_handler_top fuel (frames st) (exceptionType xh)
                handle_exception_obj (object_of ue_header xh) h hfr c Ha Hh Hc)
      as (Hne & p' & call & Hsearch0).
    assert (Hsearch :
      search (S fuel) (frames st) (exceptionType xh) handle_exception_obj
        (object_of ue_header xh) (__pnacl_eh_stack st) =
      Some ((Some (h, c), p'), [call]))
      by (rewrite Htop0; exact Hsearch0).
    assert (Hcheck : true && (c =? 0) = false)
      by (apply Z.eqb_neq in Hne; rewrite Hne; reflexivity).
    unfold unwind in Hrun.
    rewrite (raise_of_handle _ _ _ _ _
               (handle_exception_enters (S fuel) ue_header true st xh h c p' hfr
                  [call] Hxh Hsearch Hh Hcheck)) in Hrun.
    apply bind_Some in Hrun as (o & l1 & l2 & Ho & Hrest & ->).
    injection Ho as <- <-. cbv beta iota in Hrest.
    erewrite resume_cleanups_stop in Hrest;
      [|unfold landed; cbn [exceptions]; apply lookup_insert_eq|exact Hne].
    injection Hrest as <- <-. simpl. lia.
Qed.

Local Abbreviation rethrow :=
  (__pnacl_eh_sjlj_Unwind_Resume_or_Rethrow can_catch action_table type_table
     filter_table sizeof_Unwind_Exception kOurDependentExceptionClass
     handle_exception_obj is_exception_caught_obj).
Local Abbreviation call_unexpected :=
  (__pnacl_eh_sjlj_cxa_call_unexpected can_catch type_table filter_table
     sizeof_Unwind_Exception kOurDependentExceptionClass
     typeid_bad_exception be).

(** C10.  Rethrowing is raising: [_Unwind_Resume_or_Rethrow] does, on
    every exception and memory, what [_Unwind_RaiseException] does.  It
    runs [handle_exception] with [check_for_catch] set.  When the
    search finds no frame, both return the code for the end of the
    stack and leave the memory as it was.  When the search stops at a
    cleanup, both run the probe from the frame after it, on the pointer
    the search left: they enter the landingpad when the probe finds a
    handler, and otherwise return the code for the end of the stack and
    leave the memory as it was, having asked the comparator what the
    search and the probe ask. *)
Theorem rethrow_is_raise (fuel : nat) (ue_header : ptr) (st : state) :
  rethrow fuel ue_header st = raise fuel ue_header st /\
  rethrow fuel ue_header st =
    (let* o := handle fuel ue_header true st in
     match o with
     | Return _ st' => ret (Return _URC_END_OF_STACK st')
     | Longjmp env val st' => ret (Longjmp env val st')
     | Terminate st' => ret (Terminate st')
     end) /\
  (forall (xh : cxa_exception) (p' : ptr) (log : list can_catch_call),
     exceptions st !! ue_header = Some xh ->
     search fuel (frames st) (exceptionType xh) handle_exception_obj
       (object_of ue_header xh) (__pnacl_eh_stack st) = Some ((None, p'), log) ->
     rethrow fuel ue_header st = Some (Return _URC_END_OF_STACK st, log) /\
     raise fuel ue_header st = Some (Return _URC_END_OF_STACK st, log)) /\
  (forall (xh : cxa_exception) (F obj' : ptr) (fr : exception_frame)
      (caught : bool) (log1 log2 : list can_catch_call),
     exceptions st !! ue_header = Some xh ->
     search fuel (frames st) (exceptionType xh) handle_exception_obj
       (object_of ue_header xh) (__pnacl_eh_stack st)
       = Some ((Some (F, 0), obj'), log1) ->
     frames st !! F = Some fr ->
     probe fuel (frames st) (exceptionType xh) obj' (next fr)
       = Some (caught, log2) ->
     rethrow fuel ue_header st
       = Some (if caught
               then Longjmp (payload fr) 1 (landed ue_header F obj' 0 xh fr st)
               else Return _URC_END_OF_STACK st,
               log1 ++ log2) /\
     raise fuel ue_header st
       = Some (if caught
               then Longjmp (payload fr) 1 (landed ue_header F obj' 0 xh fr st)
               else Return _URC_END_OF_STACK st,
               log1 ++ log2)).
Proof.
  split; [reflexivity|]. split; [reflexivity|]. split.
  - intros xh p' log Hxh Hsearch.
    unfold __pnacl_eh_sjlj_Unwind_Resume_or_Rethrow.
    pose proof (raise_of_handle fuel ue_header st (Return tt st) log
                  (handle_exception_no_match fuel ue_header true st xh p' log
                     Hxh Hsearch)) as H.
    auto.
  - intros xh F obj' fr caught log1 log2 Hxh Hsearch Hfr Hprobe.
    unfold __pnacl_eh_sjlj_Unwind_Resume_or_Rethrow.
    pose proof (raise_of_handle fuel ue_header st _ _
                  (handle_exception_probes fuel ue_header st xh F obj' fr
                     caught log1 log2 Hxh Hsearch Hfr Hprobe)) as H.
    destruct caught; auto.
Qed.

(** C9.  [__cxa_call_unexpected] never returns to its caller: it leaves
    by an exception or hands over to [std::__terminate].  When the
    handler for unexpected exceptions throws, the new exception is
    checked against the filter id that the old header held on entry:
    allowed by that filter, it is rethrown; otherwise, when the filter
    allows [std::bad_exception], one is thrown in its place; otherwise
    [std::__terminate] is called with the terminate handler the old
    header held on entry.  The second check is not made when the first
    one lets the exception through. *)
Theorem call_unexpected_rechecks_in_order
    (run_unexpected : ptr -> state -> unexpected_result)
    (ue_header : ptr) (st : state) (old : cxa_exception) :
  exceptions st !! ue_header = Some old ->
  (forall e log,
     call_unexpected run_unexpected ue_header st = Some (e, log) ->
     e <> exit_return) /\
  (forall (new_ue_header : ptr) (st' : state) (new : cxa_exception)
      (violated : bool) (log1 : list can_catch_call),
     run_unexpected (unexpectedHandler old) st
       = unexpected_threw new_ue_header st' ->
     exceptions st' !! new_ue_header = Some new ->
     spec_can_catch (exceptionType new) (object_of new_ue_header new)
       (handlerSwitchValue old) = Some (violated, log1) ->
     (violated = false ->
      call_unexpected run_unexpected ue_header st
        = Some (exit_rethrow new_ue_header, log1)) /\
     (violated = true ->
      forall (violated_be : bool) (log2 : list can_catch_call),
        spec_can_catch typeid_bad_exception be (handlerSwitchValue old)
          = Some (violated_be, log2) ->
        call_unexpected run_unexpected ue_header st
          = Some (if violated_be
                  then exit_terminate (terminateHandler old)
                  else exit_throw_bad_exception,
                  log1 ++ log2))).
Proof.
  intros Hold. unfold __pnacl_eh_sjlj_cxa_call_unexpected.
  rewrite Hold. cbn [lift]. rewrite bind_ret. cbv zeta. split.
  - intros e log Hrun.
    destruct (run_unexpected (unexpectedHandler old) st)
      as [st'|new_ue_header st'].
    + injection Hrun as <- <-. discriminate.
    + apply bind_Some in Hrun as (new & l1 & l2 & _ & Hrun & ->).
      apply bind_Some in Hrun as (violated & l3 & l4 & _ & Hrun & ->).
      destruct violated; cbn [negb] in Hrun.
      * apply bind_Some in Hrun as (violated_be & l5 & l6 & _ & Hrun & ->).
        destruct violated_be; injection Hrun as <- <-; discriminate.
      * injection Hrun as <- <-. discriminate.
  - intros new_ue_header st' new violated log1 Hthrew Hnew Hcheck.
    rewrite Hthrew, Hnew. cbn [lift]. rewrite bind_ret. split.
    + intros ->. erewrite bind_eq_Some; [|exact Hcheck|reflexivity].
      rewrite app_nil_r. reflexivity.
    + intros -> violated_be log2 Hbe.
      eapply bind_eq_Some; [exact Hcheck|]. cbn [negb].
      rewrite Hbe. unfold bind, ret.
      destruct violated_be; cbn [negb]; rewrite app_nil_r; reflexivity.
Qed.

End Facts.

(** ** The order of a clause list *)

(** C4.  The walk of [does_frame_match] starts at the frame's
    [clause_list_id], follows [next_clause_list_id] until it is [0],
    and returns the first entry on the way that the clause matcher
    accepts: every entry before it was rejected, and the entries after
    it are not looked at.  The order counts: in the example table the
    clause lists 3 and 4 hold the same two clauses, the null type entry
    and [type_A], in opposite orders, and an exception of type [type_A]
    is given clause 2 by the first and clause 1 by the second. *)
Theorem does_frame_match_returns_first :
  (forall (can_catch : ptr -> ptr -> ptr -> bool * ptr)
      (action_table : list action_table_entry)
      (type_table : list ptr) (filter_table : list Z)
      (fuel : nat) (throw_type obj p : ptr) (frame : exception_frame)
      (l : list action_table_entry) (r : option Z * ptr)
      (log : list can_catch_call),
    clause_list action_table (to_int32 (clause_list_id frame)) l ->
    (length l < fuel)%nat ->
    (does_frame_match can_catch action_table type_table filter_table
       fuel throw_type obj p frame = Some (r, log) <->
     first_match can_catch type_table filter_table throw_type obj p l r log) /\
    (does_frame_match can_catch action_table type_table filter_table
       fuel throw_type obj p frame = Some (r, log) ->
     match r.1 with
     | Some c =>
         exists pre e post q lg,
           l = pre ++ e :: post /\ clause_id e = c /\
           does_clause_match can_catch type_table filter_table
             throw_type obj q (clause_id e) = Some ((true, r.2), lg) /\
           Forall (fun e' => exists q1 q2 lg',
                     does_clause_match can_catch type_table filter_table
                       throw_type obj q1 (clause_id e')
                       = Some ((false, q2), lg')) pre
     | None =>
         Forall (fun e' => exists q1 q2 lg',
                   does_clause_match can_catch type_table filter_table
                     throw_type obj q1 (clause_id e')
                     = Some ((false, q2), lg')) l
     end)) /\
  (clause_list ex_action_table 3
     [ {| clause_id := 2; next_clause_list_id := 2 |};
       {| clause_id := 1; next_clause_list_id := 0 |} ] /\
   clause_list ex_action_table 4
     [ {| clause_id := 1; next_clause_list_id := 5 |};
       {| clause_id := 2; next_clause_list_id := 0 |} ] /\
   does_frame_match ex_can_catch ex_action_table ex_type_table ex_filter_table
     3 type_A 5000 9032 (ex_frame [] 0 3) = Some ((Some 2, 9032), []) /\
   does_frame_match ex_can_catch ex_action_table ex_type_table ex_filter_table
     3 type_A 5000 9032 (ex_frame [] 0 4)
     = Some ((Some 1, 9032),
             [{| call_catch_type := type_A;
                 call_throw_type := type_A;
                 call_adjusted := 9032 |}])).
Proof.
  split.
  - intros can_catch action_table type_table filter_table fuel throw_type obj p
      frame l r log Hl Hfuel.
    assert (Hto : does_frame_match can_catch action_table type_table filter_table
                    fuel throw_type obj p frame = Some (r, log) ->
                  first_match can_catch type_table filter_table
                    throw_type obj p l r log)
      by (apply computed_first_match; assumption).
    split.
    + split; [exact Hto|].
      intros Hfm. unfold does_frame_match.
      eapply first_match_computed; eassumption.
    + intros Hrun. apply first_match_split with (p := p) (log := log).
      apply Hto. exact Hrun.
  - split; [|split; [|split; reflexivity]].
    + apply clause_list_node; [discriminate|reflexivity|].
      apply clause_list_node; [discriminate|reflexivity|].
      apply clause_list_end.
    + apply clause_list_node; [discriminate|reflexivity|].
      apply clause_list_node; [discriminate|reflexivity|].
      apply clause_list_end.
Qed.

(** ** The pointer a filter clause is checked on *)

(** C7.  For a filter clause the clause matcher gives the verdict of
    the filter evaluator, and leaves the caller's object pointer as it
    is; but it runs the evaluator on [obj], the address of the caller's
    pointer, not on the object pointer stored there.  With a comparator
    that looks at the object, an exception of type [type_A] whose
    object lies at [9032] is allowed by the filter [-1], which lists
    [type_A]; the clause matcher, called with that pointer held in a
    variable at [5000], reports that the filter is violated. *)
Theorem filter_clause_gets_pointer_address :
  (forall (can_catch : ptr -> ptr -> ptr -> bool * ptr)
      (type_table : list ptr) (filter_table : list Z)
      (throw_type obj p : ptr) (clause_id : Z),
    clause_id < 0 ->
    does_clause_match can_catch type_table filter_table throw_type obj p clause_id
    = (let* violated :=
         exception_spec_can_catch can_catch type_table filter_table
           throw_type obj clause_id in
       ret (violated, p))) /\
  exception_spec_can_catch ex_reading_can_catch ex_type_table ex_filter_table
    type_A 9032 (-1)
  = Some (false, [{| call_catch_type := type_A;
                     call_throw_type := type_A;
                     call_adjusted := 9032 |}]) /\
  does_clause_match ex_reading_can_catch ex_type_table ex_filter_table
    type_A 5000 9032 (-1)
  = Some ((true, 9032), [{| call_catch_type := type_A;
                            call_throw_type := type_A;
                            call_adjusted := 5000 |}]).
Proof.
  split; [|split; reflexivity].
  intros can_catch type_table filter_table throw_type obj p clause_id Hneg.
  apply does_clause_match_filter. exact Hneg.
Qed.

(** ** The pointer a rejected catch clause leaves *)

(** C8.  For a catch clause whose type-table entry is not null the
    clause matcher asks the comparator once, on the caller's object
    pointer itself, and hands back its verdict; but the value the
    comparator left in the pointer stays there whatever the verdict:
    nothing restores it after a rejection.  With a comparator that
    moves the pointer before it compares, the catch clause of [type_A]
    rejects an exception of type [type_B] and leaves the caller's
    pointer, [9032] before the call, at [9040].  The clause list 4 then
    enters its catch of the null entry with the pointer at [9040], and
    raising on [ex_memory_passed], where a frame that catches [type_A]
    is passed before the frame that catches [type_B], stores [9048] as
    the adjusted pointer, where the comparator asked for [type_B] on
    the thrown object gives [9040]. *)
Theorem catch_clause_rejection_moves_pointer :
  (forall (can_catch : ptr -> ptr -> ptr -> bool * ptr)
      (type_table : list ptr) (filter_table : list Z)
      (throw_type obj p : ptr) (clause_id catch_type : Z),
    0 < clause_id ->
    array_get type_table (clause_id - 1) = Some catch_type ->
    catch_type <> NULL ->
    does_clause_match can_catch type_table filter_table throw_type obj p clause_id
    = Some (can_catch catch_type throw_type p,
            [{| call_catch_type := catch_type;
                call_throw_type := throw_type;
                call_adjusted := p |}])) /\
  ex_eager_can_catch type_A type_B 9032 = (false, 9040) /\
  does_clause_match ex_eager_can_catch ex_type_table ex_filter_table
    type_B 5000 9032 1
  = Some ((false, 9040), [{| call_catch_type := type_A;
                             call_throw_type := type_B;
                             call_adjusted := 9032 |}]) /\
  does_frame_match ex_eager_can_catch ex_action_table ex_type_table
    ex_filter_table 5 type_B 5000 9032 (ex_frame [4] 0 4)
  = Some ((Some 2, 9040), [{| call_catch_type := type_A;
                              call_throw_type := type_B;
                              call_adjusted := 9032 |}]) /\
  ex_eager_can_catch type_B type_B 9032 = (true, 9040) /\
  __pnacl_eh_sjlj_Unwind_RaiseException ex_eager_can_catch ex_action_table
    ex_type_table ex_filter_table 32 1 5000 6000 5 9000 ex_memory_passed
  = Some (Longjmp (as_jmpbuf [3]) 1
            (landed 9000 3000 9048 3 (ex_exception type_B 0)
               (ex_frame [3] 0 7) ex_memory_passed),
          [{| call_catch_type := type_A;
              call_throw_type := type_B;
              call_adjusted := 9032 |};
           {| call_catch_type := type_B;
              call_throw_type := type_B;
              call_adjusted := 9040 |}]) /\
  adjustedPtr <$>
    exceptions (landed 9000 3000 9048 3 (ex_exception type_B 0)
                  (ex_frame [3] 0 7) ex_memory_passed) !! 9000
  = Some 9048.
Proof.
  split.
  { intros can_catch type_table filter_table throw_type obj p clause_id
      catch_type Hpos Hty Hnull.
    apply does_clause_match_typed; assumption. }
  repeat split; vm_compute; reflexivity.
Qed.

(** ** Inputs on which a property as first stated fails *)

(** C3 as first stated fails here: with one frame that catches the
    exception, the search asks the comparator once and a probe from the
    top frame would ask it once more; raising asks it once in all, and
    enters the landingpad: no probe was run.  Had the probe gone over
    the stack from the top frame first, the comparator would have been
    asked twice. *)
Lemma raise_does_not_probe_first :
  find_match ex_can_catch ex_action_table ex_type_table ex_filter_table
    5 (frames ex_memory_handler) type_A 5000 9032 3000
  = Some ((Some (3000, 1), 9032),
          [{| call_catch_type := type_A;
              call_throw_type := type_A;
              call_adjusted := 9032 |}]) /\
  is_exception_caught ex_can_catch ex_action_table ex_type_table ex_filter_table
    6000 5 (frames ex_memory_handler) type_A 9032 3000
  = Some (true,
          [{| call_catch_type := type_A;
              call_throw_type := type_A;
              call_adjusted := 9032 |}]) /\
  __pnacl_eh_sjlj_Unwind_RaiseException ex_can_catch ex_action_table
    ex_type_table ex_filter_table 32 1 5000 6000 5 9000 ex_memory_handler
  = Some (Longjmp (as_jmpbuf [3]) 1
            (landed 9000 3000 9032 1 (ex_exception type_A 0)
               (ex_frame [3] 0 2) ex_memory_handler),
          [{| call_catch_type := type_A;
              call_throw_type := type_A;
              call_adjusted := 9032 |}]) /\
  invocations
    (raise_probe_first ex_can_catch ex_action_table
       ex_type_table ex_filter_table 32 1 5000 6000 5 9000 ex_memory_handler)
  = Some 2%nat /\
  __pnacl_eh_sjlj_Unwind_RaiseException ex_can_catch ex_action_table
    ex_type_table ex_filter_table 32 1 5000 6000 5 9000 ex_memory_handler
  <> raise_probe_first ex_can_catch ex_action_table
       ex_type_table ex_filter_table 32 1 5000 6000 5 9000 ex_memory_handler.
Proof.
  assert (H1 : invocations
    (__pnacl_eh_sjlj_Unwind_RaiseException ex_can_catch ex_action_table
       ex_type_table ex_filter_table 32 1 5000 6000 5 9000 ex_memory_handler)
    = Some 1%nat) by (vm_compute; reflexivity).
  assert (H2 : invocations
    (raise_probe_first ex_can_catch ex_action_table
       ex_type_table ex_filter_table 32 1 5000 6000 5 9000 ex_memory_handler)
    = Some 2%nat) by (vm_compute; reflexivity).
  split; [vm_compute; reflexivity|]. split; [vm_compute; reflexivity|].
  split; [vm_compute; reflexivity|]. split; [exact H2|].
  intros Heq. rewrite Heq, H2 in H1. discriminate.
Qed.

(** ** The properties at work on the examples *)

Lemma ex_action_table_int32 :
  Forall (fun e => int32_range (clause_id e)) ex_action_table.
Proof.
  unfold ex_action_table.
  repeat (constructor; [unfold int32_range, int32_min, int32_max; simpl; lia|]).
  constructor.
Qed.

(** C1 on [ex_memory_catch]: the landingpad of the frame at [2000] is
    entered for the clause 3, with the pointer moved to the base part. *)
Lemma handle_exception_commit_transfer_witness :
  exists st' : state,
    handle_exception ex_can_catch ex_action_table ex_type_table ex_filter_table
      32 1 5000 6000 5 9000 true ex_memory_catch
    = Some (Longjmp (as_jmpbuf [2]) 1 st',
            [{| call_catch_type := type_B;
                call_throw_type := type_D;
                call_adjusted := 9032 |}]) /\
    __pnacl_eh_stack st' = 3000 /\
    stack_chain (frames st') (__pnacl_eh_stack st') [3000] /\
    frames st' !! 2000
    = Some {| payload := as_result {| exception_obj := 9000;
                                      matched_clause_id := 3 |};
              next := 3000;
              clause_list_id := 7 |} /\
    frames st' !! 3000 = Some (ex_frame [3] 0 2) /\
    exceptions st' !! 9000
    = Some {| exceptionType := type_D;
              unexpectedHandler := 700;
              terminateHandler := 800;
              handlerSwitchValue := 3;
              adjustedPtr := 9040;
              exception_class := 0;
              primaryException := 0 |}.
Proof.
  destruct (handle_exception_commit_transfer ex_can_catch ex_action_table
              ex_type_table ex_filter_table 32 1 5000 6000 5 9000 true
              ex_memory_catch (ex_exception type_D 0) [2000; 3000])
    as [Hcommits Hwhenever].
  - exact ex_action_table_int32.
  - vm_compute. reflexivity.
  - apply (stack_chain_frame _ 2000 (ex_frame [2] 3000 7));
      [unfold NULL; lia|vm_compute; reflexivity|].
    apply (stack_chain_frame _ 3000 (ex_frame [3] 0 2));
      [unfold NULL; lia|vm_compute; reflexivity|].
    apply stack_chain_end.
  - destruct (Hcommits 2000 3 9040 (ex_frame [2] 3000 7)
                [{| call_catch_type := type_B;
                    call_throw_type := type_D;
                    call_adjusted := 9032 |}] []) as (st' & Hrun).
    + vm_compute. reflexivity.
    + vm_compute. reflexivity.
    + reflexivity.
    + destruct (Hwhenever _ _ _ _ Hrun)
        as (F & c & obj' & fr & log1 & inner & outer & Hsearch & Hfr & _ & _
            & Hsplit & Htop & Hchain & _ & Hother & HF & _ & Hxh & _).
      vm_compute in Hsearch. injection Hsearch as <- <- <- <-.
      vm_compute in Hfr. injection Hfr as <-.
      destruct inner as [|a inner]; simpl in Hsplit;
        [|injection Hsplit as _ Hsplit;
          destruct inner; simpl in Hsplit; [discriminate|];
          injection Hsplit as _ Hsplit; destruct inner; discriminate].
      injection Hsplit as <-.
      exists st'. split; [exact Hrun|]. split; [exact Htop|].
      split; [exact Hchain|]. split; [exact HF|]. split; [|exact Hxh].
      rewrite Hother by lia. vm_compute. reflexivity.
Defined.


(** C3 on [ex_memory_cleanups]: the first match is the cleanup of the
    frame at [1000]; the probe, run from the frame at [1100], finds the
    handler at [3000], and the landingpad at [1000] is entered. *)
Lemma raise_probes_past_cleanup_match_witness :
  __pnacl_eh_sjlj_Unwind_RaiseException ex_can_catch ex_action_table
    ex_type_table ex_filter_table 32 1 5000 6000 5 9000 ex_memory_cleanups
  = Some (Longjmp (as_jmpbuf [1]) 1
            (landed 9000 1000 9032 0 (ex_exception type_A 0)
               (ex_frame [1] 1100 1) ex_memory_cleanups),
          [{| call_catch_type := type_A;
              call_throw_type := type_A;
              call_adjusted := 9032 |}]).
Proof.
  destruct (raise_probes_past_cleanup_match ex_can_catch ex_action_table
              ex_type_table ex_filter_table 32 1 5000 6000 5 9000
              ex_memory_cleanups (ex_exception type_A 0) 1000 0 9032
              (ex_frame [1] 1100 1) []) as [_ Hprobe].
  - vm_compute. reflexivity.
  - vm_compute. reflexivity.
  - vm_compute. reflexivity.
  - apply (Hprobe eq_refl true
             [{| call_catch_type := type_A;
                 call_throw_type := type_A;
                 call_adjusted := 9032 |}]).
    vm_compute. reflexivity.
Defined.

(** C4 on the clause list 7 of the example table: an exception of type
    [type_A] is rejected by the catch of [type_B] and taken by the
    cleanup after it. *)
Lemma does_frame_match_returns_first_witness :
  first_match ex_can_catch ex_type_table ex_filter_table type_A 5000 9032
    [ {| clause_id := 3; next_clause_list_id := 1 |};
      {| clause_id := 0; next_clause_list_id := 0 |} ]
    (Some 0, 9032)
    [{| call_catch_type := type_B;
        call_throw_type := type_A;
        call_adjusted := 9032 |}].
Proof.
  apply (proj1 does_frame_match_returns_first ex_can_catch ex_action_table
           ex_type_table ex_filter_table 3%nat type_A 5000 9032 (ex_frame [] 0 7)).
  - apply clause_list_node; [discriminate|reflexivity|].
    apply clause_list_node; [discriminate|reflexivity|].
    apply clause_list_end.
  - simpl. lia.
  - vm_compute. reflexivity.
Defined.


(** C6 on [ex_memory_cleanups]: two cleanup frames above the handler;
    the handler is reached and the comparator was asked at most twice. *)
Lemma resume_skips_probe_linear_witness :
  exists st' log,
    unwind ex_can_catch ex_action_table ex_type_table ex_filter_table
      32 1 5000 6000 ex_begin_catch 5%nat 5%nat 9000 ex_memory_cleanups
    = Some (unwind_caught st', log) /\
    __pnacl_eh_stack st' = 0 /\
    (length log <= 2)%nat /\
    (length log <= 3)%nat.
Proof.
  apply (proj2 (proj2 (resume_skips_probe_linear ex_can_catch ex_action_table
                         ex_type_table ex_filter_table 32 1 5000 6000 ex_begin_catch))
           5%nat 5%nat 9000 3000 (ex_frame [3] 0 2) 1 [1000; 1100] []
           ex_memory_cleanups (ex_exception type_A 0)).
  - vm_compute. reflexivity.
  - apply (stack_chain_frame _ 1000 (ex_frame [1] 1100 1));
      [unfold NULL; lia|vm_compute; reflexivity|].
    apply (stack_chain_frame _ 1100 (ex_frame [11] 3000 1));
      [unfold NULL; lia|vm_compute; reflexivity|].
    apply (stack_chain_frame _ 3000 (ex_frame [3] 0 2));
      [unfold NULL; lia|vm_compute; reflexivity|].
    apply stack_chain_end.
  - intros b Hb.
    apply elem_of_cons in Hb as [->|Hb];
      [|apply elem_of_cons in Hb as [->|Hb];
        [|apply elem_of_nil in Hb; contradiction]].
    + exists (ex_frame [1] 1100 1). split; vm_compute; reflexivity.
    + exists (ex_frame [11] 3000 1). split; vm_compute; reflexivity.
  - vm_compute. reflexivity.
  - vm_compute. reflexivity.
  - simpl. lia.
  - simpl. lia.
Defined.

(** C9 on [ex_memory_unexpected]: the handler throws an exception of
    type [type_A], which the filter [-1] of the old exception allows,
    and it is rethrown. *)
Lemma call_unexpected_rechecks_in_order_witness :
  __pnacl_eh_sjlj_cxa_call_unexpected ex_can_catch ex_type_table ex_filter_table
    32 1 type_B 7000 ex_run_unexpected 9000 (ex_memory_unexpected type_A)
  = Some (exit_rethrow 9500,
          [{| call_catch_type := type_A;
              call_throw_type := type_A;
              call_adjusted := 9532 |}]).
Proof.
  destruct (call_unexpected_rechecks_in_order ex_can_catch ex_type_table
              ex_filter_table 32 1 type_B 7000 ex_run_unexpected 9000
              (ex_memory_unexpected type_A) (ex_exception type_B (-1)))
    as [_ Hthrew].
  - vm_compute. reflexivity.
  - destruct (Hthrew 9500 (ex_memory_unexpected type_A) (ex_exception type_A 0)
                false
                [{| call_catch_type := type_A;
                    call_throw_type := type_A;
                    call_adjusted := 9532 |}]) as [Hallowed _].
    + reflexivity.
    + vm_compute. reflexivity.
    + vm_compute. reflexivity.
    + exact (Hallowed eq_refl).
Defined.

(** C10 on two memories with frames.  On [ex_memory_no_match] no
    frame matches: the comparator is asked once for each frame, and
    rethrowing returns the code for the end of the stack, as raising
    does.  On [ex_memory_unhandled] the search stops at the cleanup of
    the frame at [1000]; the probe is run from the frame at [3000] and
    finds no handler, and rethrowing returns the same code, as raising
    does. *)
Lemma rethrow_is_raise_witness :
  (__pnacl_eh_sjlj_Unwind_Resume_or_Rethrow ex_can_catch ex_action_table
     ex_type_table ex_filter_table 32 1 5000 6000 5 9000 ex_memory_no_match
   = Some (Return _URC_END_OF_STACK ex_memory_no_match,
           [{| call_catch_type := type_A;
               call_throw_type := type_B;
               call_adjusted := 9032 |};
            {| call_catch_type := type_A;
               call_throw_type := type_B;
               call_adjusted := 9032 |}]) /\
   __pnacl_eh_sjlj_Unwind_RaiseException ex_can_catch ex_action_table
     ex_type_table ex_filter_table 32 1 5000 6000 5 9000 ex_memory_no_match
   = Some (Return _URC_END_OF_STACK ex_memory_no_match,
           [{| call_catch_type := type_A;
               call_throw_type := type_B;
               call_adjusted := 9032 |};
            {| call_catch_type := type_A;
               call_throw_type := type_B;
               call_adjusted := 9032 |}])) /\
  (__pnacl_eh_sjlj_Unwind_Resume_or_Rethrow ex_can_catch ex_action_table
     ex_type_table ex_filter_table 32 1 5000 6000 5 9000 ex_memory_unhandled
   = Some (Return _URC_END_OF_STACK ex_memory_unhandled,
           [] ++ [{| call_catch_type := type_A;
                     call_throw_type := type_B;
                     call_adjusted := 9032 |}]) /\
   __pnacl_eh_sjlj_Unwind_RaiseException ex_can_catch ex_action_table
     ex_type_table ex_filter_table 32 1 5000 6000 5 9000 ex_memory_unhandled
   = Some (Return _URC_END_OF_STACK ex_memory_unhandled,
           [] ++ [{| call_catch_type := type_A;
                     call_throw_type := type_B;
                     call_adjusted := 9032 |}])).
Proof.
  split.
  - apply (proj1 (proj2 (proj2 (rethrow_is_raise ex_can_catch ex_action_table
                                  ex_type_table ex_filter_table 32 1 5000 6000
                                  5 9000 ex_memory_no_match)))
             (ex_exception type_B 0) 9032).
    + vm_compute. reflexivity.
    + vm_compute. reflexivity.
  - apply (proj2 (proj2 (proj2 (rethrow_is_raise ex_can_catch ex_action_table
                                  ex_type_table ex_filter_table 32 1 5000 6000
                                  5 9000 ex_memory_unhandled)))
             (ex_exception type_B 0) 1000 9032 (ex_frame [1] 3000 1) false).
    + vm_compute. reflexivity.
    + vm_compute. reflexivity.
    + vm_compute. reflexivity.
    + vm_compute. reflexivity.
Defined.

(** * Further properties of the code *)

Section MoreFacts.

Variable can_catch : ptr -> ptr -> ptr -> bool * ptr.
Variable action_table : list action_table_entry.
Variable type_table : list ptr.
Variable filter_table : list Z.
Variable sizeof_Unwind_Exception : Z.
Variable kOurDependentExceptionClass : Z.
Variable handle_exception_obj : ptr.
Variable is_exception_caught_obj : ptr.
Variable __cxa_begin_catch : ptr -> state -> state.
Variable typeid_bad_exception : ptr.
Variable be : ptr.

Local Abbreviation spec_can_catch :=
  (exception_spec_can_catch can_catch type_table filter_table).
Local Abbreviation clause_match :=
  (does_clause_match can_catch type_table filter_table).
Local Abbreviation frame_match :=
  (does_frame_match can_catch action_table type_table filter_table).
Local Abbreviation frame_match_loop :=
  (does_frame_match_loop can_catch action_table type_table filter_table).
Local Abbreviation search_loop :=
  (find_match_loop can_catch action_table type_table filter_table).
Local Abbreviation search :=
  (find_match can_catch action_table type_table filter_table).
Local Abbreviation probe_loop :=
  (is_exception_caught_loop can_catch action_table type_table filter_table
     is_exception_caught_obj).
Local Abbreviation probe :=
  (is_exception_caught can_catch action_table type_table filter_table
     is_exception_caught_obj).
Local Abbreviation object_of :=
  (get_object_from_ue sizeof_Unwind_Exception kOurDependentExceptionClass).
Local Abbreviation handle :=
  (handle_exception can_catch action_table type_table filter_table
     sizeof_Unwind_Exception kOurDependentExceptionClass
     handle_exception_obj is_exception_caught_obj).
Local Abbreviation raise :=
  (__pnacl_eh_sjlj_Unwind_RaiseException can_catch action_table type_table
     filter_table sizeof_Unwind_Exception kOurDependentExceptionClass
     handle_exception_obj is_exception_caught_obj).
Local Abbreviation resume :=
  (__pnacl_eh_resume can_catch action_table type_table
     filter_table sizeof_Unwind_Exception kOurDependentExceptionClass
     handle_exception_obj is_exception_caught_obj
     __cxa_begin_catch).
Local Abbreviation call_unexpected :=
  (__pnacl_eh_sjlj_cxa_call_unexpected can_catch type_table filter_table
     sizeof_Unwind_Exception kOurDependentExceptionClass
     typeid_bad_exception be).

(** ** The filter evaluator: bounds and the empty list *)

(** Where the filter evaluator has defined behaviour. *)
Lemma exception_spec_can_catch_Some_inv (throw_type obj filter_id : Z)
    (r : bool * list can_catch_call) :
  spec_can_catch throw_type obj filter_id = Some r ->
  filter_id < 0 /\ filter_id <> int32_min /\
  - filter_id - 1 < Z.of_nat (length filter_table).
Proof.
  destruct r as [violated log]. unfold exception_spec_can_catch. intros Hrun.
  destruct (filter_id =? int32_min) eqn:Hmin; [discriminate|].
  apply Z.eqb_neq in Hmin.
  apply bind_Some in Hrun as (l & l1 & l2 & Hfrom & Hloop & ->).
  unfold array_from in Hfrom.
  destruct (- filter_id - 1 <? 0) eqn:Hneg; [discriminate|].
  apply Z.ltb_ge in Hneg. injection Hfrom as <- <-.
  split; [lia|]. split; [assumption|].
  destruct (Z_lt_le_dec (- filter_id - 1) (Z.of_nat (length filter_table)))
    as [Hin|Hout]; [assumption|].
  rewrite drop_ge in Hloop by lia. discriminate.
Qed.

(** X1.  The filter evaluator has defined behaviour only for a filter
    id that is negative, is not [INT32_MIN], and whose index
    [- filter_id - 1] lies inside the filter table. *)
Theorem exception_spec_can_catch_in_bounds (throw_type obj filter_id : Z)
    (r : bool * list can_catch_call) :
  spec_can_catch throw_type obj filter_id = Some r ->
  filter_id < 0 /\ filter_id <> int32_min /\
  - filter_id - 1 < Z.of_nat (length filter_table).
Proof. exact (exception_spec_can_catch_Some_inv throw_type obj filter_id r). Qed.

(** X2.  A filter whose list is empty, the sentinel standing at its
    index, is violated by every exception, and the comparator is not
    asked. *)
Theorem exception_spec_can_catch_empty_list (throw_type obj filter_id : Z) :
  filter_id <> int32_min ->
  filter_list filter_table filter_id = Some [] ->
  spec_can_catch throw_type obj filter_id = Some (true, []).
Proof.
  intros Hmin Hl.
  apply (exception_spec_can_catch_calls can_catch type_table filter_table
           throw_type obj filter_id [] [] Hmin Hl eq_refl).
Qed.

(** X3.  When the handler for unexpected exceptions throws and
    [__cxa_call_unexpected] has defined behaviour, the switch value
    the old exception retained is the id of a filter inside the filter
    table: the function may only be called for an exception that a
    filter clause stopped. *)
Theorem call_unexpected_needs_filter
    (run_unexpected : ptr -> state -> unexpected_result)
    (ue_header : ptr) (st : state) (old : cxa_exception)
    (new_ue_header : ptr) (st' : state)
    (r : unexpected_exit * list can_catch_call) :
  exceptions st !! ue_header = Some old ->
  run_unexpected (unexpectedHandler old) st = unexpected_threw new_ue_header st' ->
  call_unexpected run_unexpected ue_header st = Some r ->
  handlerSwitchValue old < 0 /\
  - handlerSwitchValue old - 1 < Z.of_nat (length filter_table) /\
  is_Some (exceptions st' !! new_ue_header).
Proof.
  destruct r as [e log]. intros Hold Hthrew Hrun.
  unfold __pnacl_eh_sjlj_cxa_call_unexpected in Hrun.
  rewrite Hold in Hrun. cbn [lift] in Hrun. rewrite bind_ret in Hrun.
  cbv zeta in Hrun. rewrite Hthrew in Hrun.
  apply bind_Some in Hrun as (new & l1 & l2 & Hnew & Hrun & ->).
  apply bind_Some in Hrun as (violated & l3 & l4 & Hcheck & _ & ->).
  apply exception_spec_can_catch_Some_inv in Hcheck as (Hneg & _ & Hin).
  split; [assumption|]. split; [assumption|].
  destruct (exceptions st' !! new_ue_header); [eauto|discriminate].
Qed.

(** ** The object pointer under a comparator that keeps it on rejection *)

Lemma does_clause_match_rejects_keeps (throw_type obj p : ptr) (c : Z) (p' : ptr)
    (log : list can_catch_call) :
  keeps_on_reject can_catch ->
  clause_match throw_type obj p c = Some ((false, p'), log) ->
  p' = p.
Proof.
  intros Hkeeps. unfold does_clause_match.
  destruct (c =? 0); [discriminate|].
  destruct (c <? 0).
  - intros Hrun.
    apply bind_Some in Hrun as (violated & l1 & l2 & _ & Hret & _).
    injection Hret as _ <- _. reflexivity.
  - intros Hrun.
    apply bind_Some in Hrun as (ty & l1 & l2 & _ & Hrun & _).
    destruct (ty =? NULL); [discriminate|].
    unfold call_can_catch in Hrun.
    destruct (can_catch ty throw_type p) as [b q] eqn:Hcc.
    injection Hrun as -> -> _.
    pose proof (Hkeeps ty throw_type p) as H. rewrite Hcc in H.
    apply H. reflexivity.
Qed.

Lemma does_frame_match_loop_pointer (fuel : nat) (throw_type obj p id : ptr)
    (m : option Z) (p' : ptr) (log : list can_catch_call) :
  keeps_on_reject can_catch ->
  frame_match_loop fuel throw_type obj p id = Some ((m, p'), log) ->
  match m with
  | None => p' = p
  | Some c =>
      exists lg, clause_match throw_type obj p c = Some ((true, p'), lg)
  end.
Proof.
  intros Hkeeps. revert id log.
  induction fuel as [|fuel IH]; intros id log Hrun;
    cbn [does_frame_match_loop] in Hrun;
    (destruct (id =? 0); [injection Hrun as <- <- <-; reflexivity|]);
    [discriminate|].
  apply bind_Some in Hrun as (e & l1 & l2 & _ & Hrun & ->).
  apply bind_Some in Hrun as ([matched p1] & l3 & l4 & Hm & Hrun & ->).
  destruct matched.
  - injection Hrun as <- <- <-. eauto.
  - apply does_clause_match_rejects_keeps in Hm; [|assumption]. subst p1.
    eapply IH. exact Hrun.
Qed.

Lemma find_match_loop_pointer (n fuel : nat) (fs : gmap Z exception_frame)
    (throw_type obj p a : ptr) (found : option (ptr * Z)) (p' : ptr)
    (log : list can_catch_call) :
  keeps_on_reject can_catch ->
  search_loop n fuel fs throw_type obj p a = Some ((found, p'), log) ->
  match found with
  | None => p' = p
  | Some (F, c) =>
      exists lg, clause_match throw_type obj p c = Some ((true, p'), lg)
  end.
Proof.
  intros Hkeeps. revert a log.
  induction n as [|n IH]; intros a log Hrun;
    cbn [find_match_loop] in Hrun;
    (destruct (a =? NULL); [injection Hrun as <- <- <-; reflexivity|]);
    [discriminate|].
  apply bind_Some in Hrun as (fr & l1 & l2 & _ & Hrun & ->).
  apply bind_Some in Hrun as ([m p1] & l3 & l4 & Hm & Hrun & ->).
  unfold does_frame_match in Hm.
  apply does_frame_match_loop_pointer in Hm; [|assumption].
  destruct m as [c|].
  - injection Hrun as <- <- <-. exact Hm.
  - subst p1. eapply IH. exact Hrun.
Qed.

(** X4.  With a comparator that leaves the pointer alone when it
    rejects, the pointer the search hands back is what the clause it
    returns makes of the pointer the search was given: the given
    pointer itself for a cleanup, a filter and a catch of the null type
    entry, and the comparator's adjustment of the given pointer for a
    typed catch.  A search that finds no frame hands the pointer back
    as it was. *)
Theorem find_match_pointer (fuel : nat) (fs : gmap Z exception_frame)
    (throw_type obj p a : ptr) (found : option (ptr * Z)) (p' : ptr)
    (log : list can_catch_call) :
  keeps_on_reject can_catch ->
  search fuel fs throw_type obj p a = Some ((found, p'), log) ->
  match found with
  | None => p' = p
  | Some (F, c) =>
      (c <= 0 -> p' = p) /\
      (0 < c ->
       exists catch_type,
         array_get type_table (c - 1) = Some catch_type /\
         (catch_type = NULL -> p' = p) /\
         (catch_type <> NULL ->
          can_catch catch_type throw_type p = (true, p')))
  end.
Proof.
  intros Hkeeps Hrun. unfold find_match in Hrun.
  apply find_match_loop_pointer in Hrun; [|assumption].
  destruct found as [[F c]|]; [|assumption].
  destruct Hrun as (lg & Hm). unfold does_clause_match in Hm.
  destruct (c =? 0) eqn:H0.
  { apply Z.eqb_eq in H0. injection Hm as <- _. split; [reflexivity|lia]. }
  apply Z.eqb_neq in H0.
  destruct (c <? 0) eqn:Hneg.
  { apply Z.ltb_lt in Hneg.
    apply bind_Some in Hm as (violated & l1 & l2 & _ & Hret & _).
    injection Hret as _ <- _. split; [reflexivity|lia]. }
  apply Z.ltb_ge in Hneg. split; [lia|]. intros _.
  apply bind_Some in Hm as (ty & l1 & l2 & Hty & Hm & _).
  destruct (array_get type_table (c - 1)) as [ty'|]; [|discriminate].
  injection Hty as <- _. exists ty'. split; [reflexivity|].
  destruct (ty' =? NULL) eqn:Hnull.
  - apply Z.eqb_eq in Hnull. injection Hm as <- _.
    split; [reflexivity|congruence].
  - apply Z.eqb_neq in Hnull. split; [congruence|]. intros _.
    unfold call_can_catch in Hm. injection Hm as Hm _. exact Hm.
Qed.

(** ** The frame the search returns *)

Lemma find_match_loop_innermost (n fuel : nat) (fs : gmap Z exception_frame)
    (throw_type obj p a F : ptr) (c : Z) (p' : ptr)
    (log : list can_catch_call) (l : list ptr) :
  search_loop n fuel fs throw_type obj p a = Some ((Some (F, c), p'), log) ->
  stack_chain fs a l ->
  exists inner outer fr,
    l = inner ++ F :: outer /\ fs !! F = Some fr /\ F <> NULL /\
    (exists q lg, frame_match fuel throw_type obj q fr = Some ((Some c, p'), lg)) /\
    Forall (fun b =>
              exists frb q q' lg,
                fs !! b = Some frb /\
                frame_match fuel throw_type obj q frb = Some ((None, q'), lg))
           inner.
Proof.
  intros Hrun Hl. revert n p log Hrun.
  induction Hl as [|a fr l Ha Hfr Hl IH]; intros n p log Hrun.
  - rewrite find_match_loop_NULL in Hrun. discriminate.
  - destruct n as [|n].
    { cbn [find_match_loop] in Hrun. apply Z.eqb_neq in Ha.
      rewrite Ha in Hrun. discriminate. }
    rewrite (find_match_loop_frame _ _ _ _ _ _ _ _ _ _ _ _ Ha Hfr) in Hrun.
    apply bind_Some in Hrun as ([matched p1] & l1 & l2 & Hm & Hrun & ->).
    destruct matched as [c'|].
    + injection Hrun as <- <- <- <-.
      exists [], l, fr. repeat split; eauto.
    + destruct (IH _ _ _ Hrun)
        as (inner & outer & fr' & -> & Hfr' & HF & Hmatch & Hinner).
      exists (a :: inner), outer, fr'. repeat split; eauto.
      constructor; [|assumption]. eauto 6.
Qed.

(** X5.  The search returns the innermost frame that matches: the
    frame it returns lies in memory on the chain from the frame it
    started at, its clause list yielded the clause id returned, and the
    clause list of every frame before it on the chain yielded no match.
    The frame returned is none of those before it. *)
Theorem find_match_innermost (fuel : nat) (fs : gmap Z exception_frame)
    (throw_type obj p a F : ptr) (c : Z) (p' : ptr)
    (log : list can_catch_call) (l : list ptr) :
  search fuel fs throw_type obj p a = Some ((Some (F, c), p'), log) ->
  stack_chain fs a l ->
  exists inner outer fr,
    l = inner ++ F :: outer /\ fs !! F = Some fr /\ F <> NULL /\
    (F ∉ inner) /\
    (exists q lg, frame_match fuel throw_type obj q fr = Some ((Some c, p'), lg)) /\
    Forall (fun b =>
              exists frb q q' lg,
                fs !! b = Some frb /\
                frame_match fuel throw_type obj q frb = Some ((None, q'), lg))
           inner.
Proof.
  intros Hrun Hl. unfold find_match in Hrun.
  destruct (find_match_loop_innermost _ _ _ _ _ _ _ _ _ _ _ _ Hrun Hl)
    as (inner & outer & fr & Hsplit & Hfr & HF & Hmatch & Hinner).
  exists inner, outer, fr. repeat split; try assumption.
  pose proof (stack_chain_NoDup _ _ _ Hl) as Hnd. rewrite Hsplit in Hnd.
  apply NoDup_app in Hnd as (_ & Hdisj & _).
  intros Hin. apply (Hdisj F Hin). apply elem_of_cons. auto.
Qed.

(** ** What [handle_exception] does when it returns *)

(** How [handle_exception] comes to return. *)
Lemma handle_exception_Return_inv (fuel : nat) (ue_header : ptr)
    (check : bool) (st st' : state) (log : list can_catch_call) :
  handle fuel ue_header check st = Some (Return tt st', log) ->
  st' = st /\
  exists xh,
    exceptions st !! ue_header = Some xh /\
    ((exists p',
        search fuel (frames st) (exceptionType xh) handle_exception_obj
          (object_of ue_header xh) (__pnacl_eh_stack st)
        = Some ((None, p'), log)) \/
     (exists F obj' fr log1 log2,
        check = true /\
        search fuel (frames st) (exceptionType xh) handle_exception_obj
          (object_of ue_header xh) (__pnacl_eh_stack st)
        = Some ((Some (F, 0), obj'), log1) /\
        frames st !! F = Some fr /\
        probe fuel (frames st) (exceptionType xh) obj' (next fr)
        = Some (false, log2) /\
        log = log1 ++ log2)).
Proof.
  intros Hrun. unfold handle_exception in Hrun.
  apply bind_Some in Hrun as (xh & l1 & l2 & Hxh & Hrun & ->).
  destruct (exceptions st !! ue_header) as [xh'|] eqn:Hlook; [|discriminate].
  injection Hxh as <- <-.
  apply bind_Some in Hrun as ([found obj'] & l3 & l4 & Hsearch & Hrun & ->).
  destruct found as [[F c]|].
  - apply bind_Some in Hrun as (fr & l5 & l6 & Hfr & Hrun & ->).
    destruct (frames st !! F) as [fr'|] eqn:HF; [|discriminate].
    injection Hfr as <- <-.
    apply bind_Some in Hrun as (uncaught & l7 & l8 & Hprobe & Hrun & ->).
    pose proof (commit_steps ue_header F obj' c xh' fr' st Hlook HF) as Hcommit.
    cbv zeta in Hcommit.
    destruct uncaught.
    + injection Hrun as <- <-. split; [reflexivity|].
      exists xh'. split; [reflexivity|]. right.
      destruct (check && (c =? 0)) eqn:Hcheck; [|discriminate].
      apply andb_true_iff in Hcheck as [-> Hc]. apply Z.eqb_eq in Hc. subst c.
      apply bind_Some in Hprobe as (caught & l9 & l10 & Hp & Hu & ->).
      injection Hu as Hu <-. destruct caught; [discriminate|].
      exists F, obj', fr', l3, l9. rewrite !app_nil_r. simpl. auto 10.
    + rewrite Hcommit in Hrun. discriminate.
  - injection Hrun as <- <-. split; [reflexivity|].
    exists xh'. split; [reflexivity|]. left. exists obj'.
    rewrite !app_nil_r. exact Hsearch.
Qed.

(** X6.  Whenever [handle_exception] returns to its caller it has
    written nothing: the memory is the one it was called with.  It
    returns only when the search found no frame, or when it was asked
    to check for a handler, the first match was a cleanup and the probe
    of the frames after it found none. *)
Theorem handle_exception_returns_untouched (fuel : nat) (ue_header : ptr)
    (check : bool) (st st' : state) (log : list can_catch_call) :
  handle fuel ue_header check st = Some (Return tt st', log) ->
  st' = st /\
  exists xh,
    exceptions st !! ue_header = Some xh /\
    ((exists p',
        search fuel (frames st) (exceptionType xh) handle_exception_obj
          (object_of ue_header xh) (__pnacl_eh_stack st)
        = Some ((None, p'), log)) \/
     (exists F obj' fr log1 log2,
        check = true /\
        search fuel (frames st) (exceptionType xh) handle_exception_obj
          (object_of ue_header xh) (__pnacl_eh_stack st)
        = Some ((Some (F, 0), obj'), log1) /\
        frames st !! F = Some fr /\
        probe fuel (frames st) (exceptionType xh) obj' (next fr)
        = Some (false, log2) /\
        log = log1 ++ log2)).
Proof. exact (handle_exception_Return_inv fuel ue_header check st st' log). Qed.

(** X7.  Whenever [_Unwind_RaiseException] returns, the code is that
    of the end of the stack and the memory is the one it was called
    with; whenever [__pnacl_eh_resume] ends in [std::terminate], the
    memory is the one [__cxa_begin_catch] made of the memory
    [__pnacl_eh_resume] was called with: the call of [__cxa_begin_catch]
    is the only thing that wrote. *)
Theorem entry_points_unhandled_memory (fuel : nat) (ue_header : ptr)
    (st st' : state) (log : list can_catch_call) :
  (forall code,
     raise fuel ue_header st = Some (Return code st', log) ->
     code = _URC_END_OF_STACK /\ st' = st) /\
  (resume fuel ue_header st = Some (Terminate st', log) ->
   st' = __cxa_begin_catch ue_header st).
Proof.
  split.
  - intros code Hrun. unfold __pnacl_eh_sjlj_Unwind_RaiseException in Hrun.
    apply bind_Some in Hrun as (o & l1 & l2 & Hhandle & Ho & ->).
    destruct o as [[] st1|env val st1|st1]; try discriminate.
    injection Ho as Hcode Hst Hl2. subst code st1 l2.
    split; [reflexivity|].
    apply handle_exception_Return_inv in Hhandle as [Hst _]. exact Hst.
  - intros Hrun. unfold __pnacl_eh_resume in Hrun.
    apply bind_Some in Hrun as (o & l1 & l2 & Hhandle & Ho & ->).
    destruct o as [[] st1|env val st1|st1]; try discriminate.
    + injection Ho as <- <-.
      apply handle_exception_Return_inv in Hhandle as [Hst _].
      rewrite Hst. reflexivity.
    + exfalso. unfold handle_exception in Hhandle.
      apply bind_Some in Hhandle as (xh & l3 & l4 & Hxh & Hhandle & ->).
      destruct (exceptions st !! ue_header) as [xh'|] eqn:Hlook; [|discriminate].
      injection Hxh as <- <-.
      apply bind_Some in Hhandle as ([found obj'] & l5 & l6 & _ & Hhandle & ->).
      destruct found as [[F c]|]; [|discriminate].
      apply bind_Some in Hhandle as (fr & l7 & l8 & Hfr & Hhandle & ->).
      destruct (frames st !! F) as [fr'|] eqn:HF; [|discriminate].
      injection Hfr as <- <-.
      apply bind_Some in Hhandle as (uncaught & l9 & l10 & _ & Hhandle & ->).
      pose proof (commit_steps ue_header F obj' c xh' fr' st Hlook HF) as Hcommit.
      cbv zeta in Hcommit.
      destruct uncaught; [discriminate|].
      rewrite Hcommit in Hhandle. discriminate.
Qed.

(** ** Clause lists *)

(** X8.  A frame whose clause list begins with a cleanup, or with a
    catch of a null type entry, matches every exception with that
    clause: the comparator is not asked, the object pointer is not
    moved, and the clauses listed after it are never looked at. *)
Theorem does_frame_match_first_unconditional (fuel : nat)
    (throw_type obj p : ptr) (fr : exception_frame) (e : action_table_entry) :
  to_int32 (clause_list_id fr) <> 0 ->
  array_get action_table (to_int32 (clause_list_id fr) - 1) = Some e ->
  clause_id e = 0 \/
  (0 < clause_id e /\ array_get type_table (clause_id e - 1) = Some NULL) ->
  frame_match (S fuel) throw_type obj p fr = Some ((Some (clause_id e), p), []).
Proof.
  intros Hid He Hfirst. unfold does_frame_match.
  rewrite (does_frame_match_loop_node _ _ _ _ _ _ _ _ _ _ Hid He).
  destruct Hfirst as [H0|[Hpos Hty]].
  - rewrite H0. rewrite does_clause_match_cleanup. reflexivity.
  - rewrite (does_clause_match_catch_all _ _ _ _ _ _ _ Hpos Hty). reflexivity.
Qed.

Lemma does_clause_match_one_call (throw_type obj p c : ptr)
    (r : bool * ptr) (log : list can_catch_call) :
  0 <= c ->
  clause_match throw_type obj p c = Some (r, log) ->
  (length log <= 1)%nat.
Proof.
  intros Hc. unfold does_clause_match.
  destruct (c =? 0); [intros [= <- <-]; simpl; lia|].
  destruct (c <? 0) eqn:Hneg; [apply Z.ltb_lt in Hneg; lia|].
  intros Hrun. apply bind_Some in Hrun as (ty & l1 & l2 & Hty & Hrun & ->).
  destruct (array_get type_table (c - 1)) as [ty'|]; [|discriminate].
  injection Hty as Hty Hl1. subst ty l1.
  destruct (ty' =? NULL); [injection Hrun as <- <-; simpl; lia|].
  unfold call_can_catch in Hrun. injection Hrun as <- <-. simpl. lia.
Qed.

(** X9.  With an action table that holds no filter clause, the walk of
    a frame's clause list asks the comparator at most once for each
    clause of the list. *)
Theorem does_frame_match_calls_bounded (fuel : nat) (throw_type obj p : ptr)
    (fr : exception_frame) (l : list action_table_entry)
    (r : option Z * ptr) (log : list can_catch_call) :
  no_filter_clauses action_table ->
  clause_list action_table (to_int32 (clause_list_id fr)) l ->
  frame_match fuel throw_type obj p fr = Some (r, log) ->
  (length log <= length l)%nat.
Proof.
  intros Hnof Hl Hrun.
  assert (Hall : Forall (fun e => 0 <= clause_id e) l).
  { clear Hrun. induction Hl as [|id e l Hid He Hl IH]; constructor.
    - unfold no_filter_clauses in Hnof. rewrite Forall_forall in Hnof.
      apply Hnof. unfold array_get in He.
      destruct (id - 1 <? 0); [discriminate|].
      eapply list_elem_of_lookup_2. eassumption.
    - assumption. }
  apply (computed_first_match can_catch action_table type_table filter_table
           fuel throw_type obj p _ l r log Hl) in Hrun.
  clear Hl. induction Hrun as [p|p q e l log Hm|p q e l r log log' Hm Hrest IH].
  - simpl. lia.
  - inversion Hall; subst.
    apply does_clause_match_one_call in Hm; [|assumption]. simpl. lia.
  - inversion Hall; subst.
    apply does_clause_match_one_call in Hm; [|assumption].
    rewrite length_app. simpl. specialize (IH ltac:(assumption)). lia.
Qed.

(** ** What the walks read of the memory *)

Lemma bind_ext {A B : Type} (m : M A) (f g : A -> M B) :
  (forall a, f a = g a) -> bind m f = bind m g.
Proof.
  intros H. destruct m as [[a l]|]; [|reflexivity]. simpl. rewrite H. reflexivity.
Qed.

Lemma bind_after_log {A B : Type} (a : A) (l : list can_catch_call)
    (f : A -> M B) :
  bind (Some (a, l)) f = after_log l (f a).
Proof. reflexivity. Qed.

Lemma after_log_after_log {A : Type} (l1 l2 : list can_catch_call) (m : M A) :
  after_log l1 (after_log l2 m) = after_log (l1 ++ l2) m.
Proof.
  destruct m as [[a l]|]; [|reflexivity]. simpl. rewrite app_assoc. reflexivity.
Qed.

Lemma same_links_lookup (fs fs' : gmap Z exception_frame) (a : ptr) :
  same_links fs fs' ->
  match fs !! a, fs' !! a with
  | Some fr, Some fr' =>
      next fr = next fr' /\ clause_list_id fr = clause_list_id fr'
  | None, None => True
  | _, _ => False
  end.
Proof.
  intros H. specialize (H a).
  destruct (fs !! a) as [fr|], (fs' !! a) as [fr'|]; simpl in H;
    try discriminate; [|exact I].
  injection H as Hn Hc. auto.
Qed.

Lemma find_match_loop_same_links (n fuel : nat) (fs fs' : gmap Z exception_frame)
    (throw_type obj p a : ptr) :
  same_links fs fs' ->
  search_loop n fuel fs throw_type obj p a
  = search_loop n fuel fs' throw_type obj p a.
Proof.
  intros Hsame. revert p a.
  induction n as [|n IH]; intros p a; cbn [find_match_loop]; [reflexivity|].
  destruct (a =? NULL); [reflexivity|].
  pose proof (same_links_lookup fs fs' a Hsame) as Ha.
  destruct (fs !! a) as [fr|], (fs' !! a) as [fr'|]; try contradiction;
    [|reflexivity].
  destruct Ha as [Hn Hc]. cbn [lift]. rewrite !bind_ret.
  unfold does_frame_match. rewrite Hc.
  apply bind_ext. intros [[c|] p1]; [reflexivity|].
  rewrite Hn. apply IH.
Qed.

Lemma is_exception_caught_loop_same_links (n fuel : nat)
    (fs fs' : gmap Z exception_frame) (throw_type p a : ptr) :
  same_links fs fs' ->
  probe_loop n fuel fs throw_type p a = probe_loop n fuel fs' throw_type p a.
Proof.
  intros Hsame. revert p a.
  induction n as [|n IH]; intros p a; cbn [is_exception_caught_loop];
    [reflexivity|].
  destruct (a =? NULL); [reflexivity|].
  pose proof (same_links_lookup fs fs' a Hsame) as Ha.
  destruct (fs !! a) as [fr|], (fs' !! a) as [fr'|]; try contradiction;
    [|reflexivity].
  destruct Ha as [Hn Hc]. cbn [lift]. rewrite !bind_ret.
  unfold does_frame_match. rewrite Hc.
  apply bind_ext. intros [[c|] p1]; rewrite Hn, IH; reflexivity.
Qed.

Lemma same_links_landed (ue_header F obj : ptr) (c : Z) (xh : cxa_exception)
    (fr : exception_frame) (st : state) :
  frames st !! F = Some fr ->
  same_links (frames st) (frames (landed ue_header F obj c xh fr st)).
Proof.
  intros Hfr a. unfold landed. cbn [frames].
  destruct (decide (F = a)) as [<-|Hne].
  - rewrite lookup_insert_eq, Hfr. reflexivity.
  - rewrite lookup_insert_ne by assumption. reflexivity.
Qed.

(** X10.  The search and the probe read of a frame only its [next] and
    its [clause_list_id]: on two memories whose frames agree on these
    they give the same result and ask the comparator the same.  The
    memory a commit leaves is such a memory, so writing the result over
    a frame's checkpoint changes no later search or probe. *)
Theorem walks_ignore_frame_storage (fuel : nat) (throw_type obj p a : ptr) :
  (forall fs fs' : gmap Z exception_frame,
     same_links fs fs' ->
     search fuel fs throw_type obj p a = search fuel fs' throw_type obj p a /\
     probe fuel fs throw_type p a = probe fuel fs' throw_type p a) /\
  (forall (ue_header F obj' : ptr) (c : Z) (xh : cxa_exception)
      (fr : exception_frame) (st : state),
     frames st !! F = Some fr ->
     search fuel (frames (landed ue_header F obj' c xh fr st)) throw_type obj p a
     = search fuel (frames st) throw_type obj p a /\
     probe fuel (frames (landed ue_header F obj' c xh fr st)) throw_type p a
     = probe fuel (frames st) throw_type p a).
Proof.
  split.
  - intros fs fs' Hsame. split.
    + apply find_match_loop_same_links. assumption.
    + apply is_exception_caught_loop_same_links. assumption.
  - intros ue_header F obj' c xh fr st Hfr.
    pose proof (same_links_landed ue_header F obj' c xh fr st Hfr) as Hsame.
    split; symmetry.
    + apply find_match_loop_same_links. assumption.
    + apply is_exception_caught_loop_same_links. assumption.
Qed.

(** ** The probe and the search on a table without filters *)

Lemma does_clause_match_slot (throw_type obj obj' p c : ptr) :
  0 <= c ->
  clause_match throw_type obj p c = clause_match throw_type obj' p c.
Proof.
  intros Hc. unfold does_clause_match.
  destruct (c =? 0); [reflexivity|].
  destruct (c <? 0) eqn:Hneg; [apply Z.ltb_lt in Hneg; lia|reflexivity].
Qed.

Lemma does_frame_match_loop_slot (fuel : nat) (throw_type obj obj' p id : ptr) :
  no_filter_clauses action_table ->
  frame_match_loop fuel throw_type obj p id
  = frame_match_loop fuel throw_type obj' p id.
Proof.
  intros Hnof. revert p id.
  induction fuel as [|fuel IH]; intros p id; cbn [does_frame_match_loop];
    [reflexivity|].
  destruct (id =? 0); [reflexivity|].
  destruct (array_get action_table (id - 1)) as [e|] eqn:He; [|reflexivity].
  cbn [lift]. rewrite !bind_ret.
  assert (Hc : 0 <= clause_id e).
  { unfold no_filter_clauses in Hnof. rewrite Forall_forall in Hnof.
    apply Hnof. unfold array_get in He.
    destruct (id - 1 <? 0); [discriminate|].
    eapply list_elem_of_lookup_2. eassumption. }
  rewrite (does_clause_match_slot throw_type obj obj' p _ Hc).
  apply bind_ext. intros [[|] p1]; [reflexivity|]. apply IH.
Qed.

Lemma is_exception_caught_loop_enough (n n' fuel : nat)
    (fs : gmap Z exception_frame) (throw_type p a : ptr) (l : list ptr) :
  stack_chain fs a l ->
  (length l <= n)%nat -> (length l <= n')%nat ->
  probe_loop n fuel fs throw_type p a = probe_loop n' fuel fs throw_type p a.
Proof.
  intros Hl. revert n n' p.
  induction Hl as [|a fr l Ha Hfr Hl IH]; intros n n' p Hn Hn'.
  - rewrite !is_exception_caught_loop_NULL. reflexivity.
  - destruct n as [|n]; [simpl in Hn; lia|].
    destruct n' as [|n']; [simpl in Hn'; lia|].
    rewrite !(is_exception_caught_loop_frame _ _ _ _ _ _ _ _ _ _ _ _ Ha Hfr).
    simpl in Hn, Hn'.
    apply bind_ext. intros [[c|] p1];
      rewrite (IH n n' p1) by lia; reflexivity.
Qed.

Lemma is_exception_caught_loop_after_search (n fuel : nat)
    (fs : gmap Z exception_frame) (throw_type obj p a : ptr) (l : list ptr) :
  no_filter_clauses action_table ->
  stack_chain fs a l ->
  (length l <= n)%nat ->
  probe_loop n fuel fs throw_type p a =
    match search_loop n fuel fs throw_type obj p a with
    | None => None
    | Some ((None, _), log) => Some (false, log)
    | Some ((Some (F, c), p'), log) =>
        if c =? 0 then
          match fs !! F with
          | Some fr => after_log log (probe_loop n fuel fs throw_type p' (next fr))
          | None => None
          end
        else Some (true, log)
    end.
Proof.
  intros Hnof Hl. revert n p.
  induction Hl as [|a fr l Ha Hfr Hl IH]; intros n p Hn.
  - rewrite is_exception_caught_loop_NULL, find_match_loop_NULL. reflexivity.
  - destruct n as [|n]; [simpl in Hn; lia|]. simpl in Hn.
    rewrite (is_exception_caught_loop_frame _ _ _ _ _ _ _ _ _ _ _ _ Ha Hfr).
    rewrite (find_match_loop_frame _ _ _ _ _ _ _ _ _ _ _ _ Ha Hfr).
    unfold does_frame_match.
    rewrite (does_frame_match_loop_slot fuel throw_type
               is_exception_caught_obj obj p _ Hnof).
    destruct (frame_match_loop fuel throw_type obj p
                (to_int32 (clause_list_id fr))) as [[[m p1] lg]|];
      [|reflexivity].
    rewrite !bind_after_log. destruct m as [c|].
    + cbn [ret after_log]. rewrite app_nil_r.
      destruct (c =? 0); cbn [negb]; [|cbn [ret after_log];
                                        rewrite app_nil_r; reflexivity].
      rewrite Hfr.
      rewrite (is_exception_caught_loop_enough n (S n) fuel fs throw_type p1
                 (next fr) l Hl) by lia.
      reflexivity.
    + rewrite (IH n p1) by lia.
      destruct (search_loop n fuel fs throw_type obj p1 (next fr))
        as [[[found p2] lg2]|] eqn:Hsearch; [|reflexivity].
      destruct found as [[F c]|]; [|reflexivity].
      cbn [after_log]. destruct (c =? 0); [|reflexivity].
      destruct (find_match_loop_found _ _ _ _ _ _ _ _ _ _ _ _ _ _ _ _ Hsearch Hl)
        as (inner & outer & frF & Hsplit & HfrF & Hout & _).
      rewrite HfrF. rewrite after_log_after_log.
      rewrite (is_exception_caught_loop_enough n (S n) fuel fs throw_type p2
                 (next frF) outer Hout).
      * reflexivity.
      * subst l. rewrite length_app in Hn. simpl in Hn. lia.
      * subst l. rewrite length_app in Hn. simpl in Hn. lia.
Qed.

(** The probe, read off the search from the same frame. *)
Lemma probe_of_search (fuel : nat)
    (fs : gmap Z exception_frame) (throw_type obj p a : ptr) (l : list ptr) :
  no_filter_clauses action_table ->
  stack_chain fs a l ->
  (length l <= fuel)%nat ->
  match search fuel fs throw_type obj p a with
  | None => probe fuel fs throw_type p a = None
  | Some ((None, _), log) => probe fuel fs throw_type p a = Some (false, log)
  | Some ((Some (F, c), p'), log) =>
      if c =? 0 then
        exists fr,
          fs !! F = Some fr /\
          probe fuel fs throw_type p a
          = after_log log (probe fuel fs throw_type p' (next fr))
      else probe fuel fs throw_type p a = Some (true, log)
  end.
Proof.
  intros Hnof Hl Hfuel. unfold is_exception_caught, find_match.
  rewrite (is_exception_caught_loop_after_search fuel fuel fs throw_type obj p a
             l Hnof Hl Hfuel).
  destruct (search_loop fuel fuel fs throw_type obj p a)
    as [[[found p'] log]|] eqn:Hsearch; [|reflexivity].
  destruct found as [[F c]|]; [|reflexivity].
  destruct (c =? 0); [|reflexivity].
  destruct (find_match_loop_found _ _ _ _ _ _ _ _ _ _ _ _ _ _ _ _ Hsearch Hl)
    as (inner & outer & fr & _ & Hfr & _).
  exists fr. rewrite Hfr. split; reflexivity.
Qed.

(** X11.  On an action table without filter clauses the probe is
    determined by the search from the same frame with the same object
    pointer.  When the search finds no frame the probe finds no handler,
    and when the search stops at a clause other than a cleanup the
    probe finds a handler, having asked the comparator the same in both
    cases.  When the search stops at a cleanup, the probe goes on as a
    probe from the frame after it, with the pointer as the search left
    it. *)
Theorem is_exception_caught_after_search (fuel : nat)
    (fs : gmap Z exception_frame) (throw_type obj p a : ptr) (l : list ptr) :
  no_filter_clauses action_table ->
  stack_chain fs a l ->
  (length l <= fuel)%nat ->
  match search fuel fs throw_type obj p a with
  | None => probe fuel fs throw_type p a = None
  | Some ((None, _), log) => probe fuel fs throw_type p a = Some (false, log)
  | Some ((Some (F, c), p'), log) =>
      if c =? 0 then
        exists fr,
          fs !! F = Some fr /\
          probe fuel fs throw_type p a
          = after_log log (probe fuel fs throw_type p' (next fr))
      else probe fuel fs throw_type p a = Some (true, log)
  end.
Proof. exact (probe_of_search fuel fs throw_type obj p a l). Qed.

(** ** Raising, and raising with the probe first *)

Lemma handle_exception_search_None (fuel : nat) (ue_header : ptr) (check : bool)
    (st : state) (xh : cxa_exception) :
  exceptions st !! ue_header = Some xh ->
  search fuel (frames st) (exceptionType xh) handle_exception_obj
    (object_of ue_header xh) (__pnacl_eh_stack st) = None ->
  handle fuel ue_header check st = None.
Proof.
  intros Hxh Hsearch. unfold handle_exception.
  rewrite Hxh. cbn [lift]. rewrite bind_ret. cbv zeta.
  rewrite Hsearch. reflexivity.
Qed.

Lemma handle_exception_probe_None (fuel : nat) (ue_header : ptr)
    (st : state) (xh : cxa_exception) (F obj' : ptr) (fr : exception_frame)
    (log : list can_catch_call) :
  exceptions st !! ue_header = Some xh ->
  search fuel (frames st) (exceptionType xh) handle_exception_obj
    (object_of ue_header xh) (__pnacl_eh_stack st)
    = Some ((Some (F, 0), obj'), log) ->
  frames st !! F = Some fr ->
  probe fuel (frames st) (exceptionType xh) obj' (next fr) = None ->
  handle fuel ue_header true st = None.
Proof.
  intros Hxh Hsearch Hfr Hprobe. unfold handle_exception.
  rewrite Hxh. cbn [lift]. rewrite bind_ret. cbv zeta.
  rewrite Hsearch. rewrite bind_after_log. cbv beta iota.
  rewrite Hfr. cbn [lift]. rewrite bind_ret. cbn [andb Z.eqb].
  rewrite Hprobe. reflexivity.
Qed.

Lemma raise_probe_first_unfold (fuel : nat) (ue_header : ptr) (st : state)
    (xh : cxa_exception) :
  exceptions st !! ue_header = Some xh ->
  raise_probe_first can_catch action_table type_table filter_table
    sizeof_Unwind_Exception kOurDependentExceptionClass
    handle_exception_obj is_exception_caught_obj fuel ue_header st
  = (let* caught :=
       probe fuel (frames st) (exceptionType xh) (object_of ue_header xh)
         (__pnacl_eh_stack st) in
     if negb caught then ret (Return _URC_END_OF_STACK st)
     else
       let* o := handle fuel ue_header false st in
       match o with
       | Return _ st' => ret (Return _URC_END_OF_STACK st')
       | Longjmp env val st' => ret (Longjmp env val st')
       | Terminate st' => ret (Terminate st')
       end).
Proof.
  intros Hxh. unfold raise_probe_first. rewrite Hxh. cbn [lift].
  rewrite bind_ret. reflexivity.
Qed.

(** X12.  On an action table without filter clauses, raising as the
    code does it (the search first, the probe only past a cleanup match
    and from the frame after it) has the outcome of raising with the
    probe of the whole stack first: the same return or the same
    longjmp, with the same memory, or undefined behaviour in both.
    Only the questions put to the comparator differ. *)
Theorem raise_as_probe_first (fuel : nat) (ue_header : ptr) (st : state)
    (l : list ptr) :
  no_filter_clauses action_table ->
  stack_chain (frames st) (__pnacl_eh_stack st) l ->
  (length l <= fuel)%nat ->
  outcome_of (raise fuel ue_header st)
  = outcome_of
      (raise_probe_first can_catch action_table type_table filter_table
         sizeof_Unwind_Exception kOurDependentExceptionClass
         handle_exception_obj is_exception_caught_obj fuel ue_header st).
Proof.
  intros Hnof Hl Hfuel.
  destruct (exceptions st !! ue_header) as [xh|] eqn:Hxh.
  2:{ unfold __pnacl_eh_sjlj_Unwind_RaiseException, raise_probe_first,
        handle_exception. rewrite Hxh. reflexivity. }
  rewrite (raise_probe_first_unfold fuel ue_header st xh Hxh).
  pose proof (probe_of_search fuel (frames st)
                (exceptionType xh) handle_exception_obj
                (object_of ue_header xh) (__pnacl_eh_stack st) l
                Hnof Hl Hfuel) as Hprobe.
  destruct (search fuel (frames st) (exceptionType xh) handle_exception_obj
              (object_of ue_header xh) (__pnacl_eh_stack st))
    as [[[found p'] log]|] eqn:Hsearch.
  2:{ rewrite Hprobe.
      unfold __pnacl_eh_sjlj_Unwind_RaiseException.
      rewrite (handle_exception_search_None fuel ue_header true st xh
                 Hxh Hsearch).
      reflexivity. }
  destruct found as [[F c]|].
  2:{ rewrite Hprobe.
      rewrite (raise_of_handle _ _ _ _ _ _ _ _ _ _ _ _ _
                 (handle_exception_no_match _ _ _ _ _ _ _ _ fuel ue_header
                    true st xh p' log Hxh Hsearch)).
      reflexivity. }
  destruct (c =? 0) eqn:Hc.
  - apply Z.eqb_eq in Hc. subst c.
    destruct Hprobe as (fr & Hfr & Hprobe). rewrite Hprobe.
    destruct (probe fuel (frames st) (exceptionType xh) p' (next fr))
      as [[caught log2]|] eqn:Hrest.
    2:{ unfold __pnacl_eh_sjlj_Unwind_RaiseException.
        rewrite (handle_exception_probe_None fuel ue_header st xh F p' fr log
                   Hxh Hsearch Hfr Hrest).
        reflexivity. }
    rewrite (raise_of_handle _ _ _ _ _ _ _ _ _ _ _ _ _
               (handle_exception_probes _ _ _ _ _ _ _ _ fuel ue_header st xh
                  F p' fr caught log log2 Hxh Hsearch Hfr Hrest)).
    cbn [after_log]. rewrite bind_after_log.
    destruct caught; cbn [negb]; [|reflexivity].
    rewrite (handle_exception_enters _ _ _ _ _ _ _ _ fuel ue_header false st xh
               F 0 p' fr log Hxh Hsearch Hfr eq_refl).
    reflexivity.
  - destruct (find_match_loop_found _ _ _ _ _ _ _ _ _ _ _ _ _ _ _ _ Hsearch Hl)
      as (inner & outer & fr & _ & Hfr & _).
    rewrite Hprobe.
    assert (Hcheck : true && (c =? 0) = false) by (rewrite Hc; reflexivity).
    rewrite (raise_of_handle _ _ _ _ _ _ _ _ _ _ _ _ _
               (handle_exception_enters _ _ _ _ _ _ _ _ fuel ue_header true st
                  xh F c p' fr log Hxh Hsearch Hfr Hcheck)).
    rewrite bind_after_log. cbn [negb].
    rewrite (handle_exception_enters _ _ _ _ _ _ _ _ fuel ue_header false st xh
               F c p' fr log Hxh Hsearch Hfr eq_refl).
    reflexivity.
Qed.

(** ** A raise that enters a landingpad ends in a handler *)

Local Abbreviation resume_landingpads :=
  (resume_cleanups can_catch action_table type_table
     filter_table sizeof_Unwind_Exception kOurDependentExceptionClass
     handle_exception_obj is_exception_caught_obj
     __cxa_begin_catch).
Local Abbreviation unwinding :=
  (unwind can_catch action_table type_table
     filter_table sizeof_Unwind_Exception kOurDependentExceptionClass
     handle_exception_obj is_exception_caught_obj
     __cxa_begin_catch).

Lemma stack_chain_nil_inv (fs : gmap Z exception_frame) (a : ptr) :
  stack_chain fs a [] -> a = NULL.
Proof. intros H. inversion H. reflexivity. Qed.

Lemma after_log_true {A : Type} (log lg : list can_catch_call) (m : M A) (a : A) :
  after_log log m = Some (a, lg) -> exists lg', m = Some (a, lg').
Proof.
  destruct m as [[a' l]|]; [|discriminate]. simpl. intros [= -> _]. eauto.
Qed.

Lemma resume_cleanups_caught (fuel : nat) (ue_header : ptr) (k : nat) :
  no_filter_clauses action_table ->
  keeps_on_reject can_catch ->
  forall (l : list ptr) (st : state) (xh : cxa_exception),
    stack_chain (frames st) (__pnacl_eh_stack st) l ->
    (length l <= k)%nat ->
    (length l <= fuel)%nat ->
    exceptions st !! ue_header = Some xh ->
    (handlerSwitchValue xh = 0 ->
     exists lg,
       probe fuel (frames st) (exceptionType xh) (object_of ue_header xh)
         (__pnacl_eh_stack st) = Some (true, lg)) ->
    exists st' log,
      resume_landingpads k fuel ue_header st = Some (unwind_caught st', log).
Proof.
  intros Hnof Hkeeps.
  induction k as [|k IH]; intros l st xh Hl Hk Hfuel Hxh Hinv;
    (destruct (Z.eq_dec (handlerSwitchValue xh) 0) as [Hsw|Hsw];
     [|eexists _, _; eapply resume_cleanups_stop; eassumption]);
    destruct (Hinv Hsw) as (lg & Hprobe).
  - destruct l; [|simpl in Hk; lia].
    apply stack_chain_nil_inv in Hl. rewrite Hl in Hprobe.
    unfold is_exception_caught in Hprobe.
    rewrite is_exception_caught_loop_NULL in Hprobe. discriminate.
  - rewrite (resume_cleanups_step _ _ _ _ _ _ _ _ _ _ _ _ _ _ Hxh Hsw).
    pose proof (probe_of_search fuel (frames st)
                  (exceptionType xh) handle_exception_obj
                  (object_of ue_header xh) (__pnacl_eh_stack st) l
                  Hnof Hl Hfuel) as Hrel.
    destruct (search fuel (frames st) (exceptionType xh) handle_exception_obj
                (object_of ue_header xh) (__pnacl_eh_stack st))
      as [[[found p'] log]|] eqn:Hsearch; [|congruence].
    destruct found as [[F c]|]; [|congruence].
    destruct (find_match_loop_found _ _ _ _ _ _ _ _ _ _ _ _ _ _ _ _ Hsearch Hl)
      as (inner & outer & fr & Hsplit & Hfr & Hout & _).
    rewrite (resume_enters _ _ _ _ _ _ _ _ _ _ _ _ _ _ _ _ _ _ Hxh Hsearch Hfr).
    rewrite bind_after_log. cbv beta iota.
    assert (HF : F ∉ outer).
    { eapply stack_chain_not_in_tail. eapply stack_chain_from.
      rewrite <- Hsplit. exact Hl. }
    destruct (IH outer (landed ue_header F p' c xh fr st)
                (with_handlerSwitchValue c (with_adjustedPtr p' xh)))
      as (st' & log' & Hrun).
    + unfold landed. cbn [frames __pnacl_eh_stack].
      apply stack_chain_insert; assumption.
    + subst l. rewrite length_app in Hk. simpl in Hk. lia.
    + subst l. rewrite length_app in Hfuel. simpl in Hfuel. lia.
    + unfold landed. cbn [exceptions]. apply lookup_insert_eq.
    + cbn [handlerSwitchValue with_handlerSwitchValue]. intros Hc. subst c.
      cbn [Z.eqb] in Hrel. destruct Hrel as (fr' & Hfr' & Hrel).
      rewrite Hfr in Hfr'. injection Hfr' as <-.
      rewrite Hprobe in Hrel. symmetry in Hrel.
      apply after_log_true in Hrel as (lg' & Hrest).
      unfold find_match in Hsearch.
      pose proof (find_match_loop_pointer _ _ _ _ _ _ _ _ _ _ Hkeeps Hsearch)
        as (lg0 & Hclause).
      rewrite does_clause_match_cleanup in Hclause. injection Hclause as <- _.
      exists lg'.
      rewrite (object_of_landed sizeof_Unwind_Exception
                 kOurDependentExceptionClass).
      cbn [exceptionType with_handlerSwitchValue with_adjustedPtr].
      cbn [__pnacl_eh_stack landed].
      unfold is_exception_caught in Hrest |- *.
      rewrite <- (is_exception_caught_loop_same_links fuel fuel (frames st)
                    _ (exceptionType xh) (object_of ue_header xh) (next fr)
                    (same_links_landed ue_header F (object_of ue_header xh) 0
                       xh fr st Hfr)).
      exact Hrest.
    + exists st', (log ++ log'). simpl. rewrite Hrun. reflexivity.
Qed.

(** X13.  On an action table without filter clauses and with a
    comparator that leaves the pointer alone when it rejects, a raise
    that enters a landingpad never ends in [std::terminate]: run through
    the cleanup landingpads, each of which resumes the unwind, it
    reaches a landingpad entered for a clause other than a cleanup.
    The path of [__pnacl_eh_resume] that calls [std::terminate] is not
    taken. *)
Theorem unwind_reaches_handler (k fuel : nat) (ue_header : ptr) (st : state)
    (l : list ptr) (env : frame_union) (val : Z) (st1 : state)
    (log : list can_catch_call) :
  no_filter_clauses action_table ->
  keeps_on_reject can_catch ->
  stack_chain (frames st) (__pnacl_eh_stack st) l ->
  (length l <= fuel)%nat ->
  (length l <= k)%nat ->
  raise fuel ue_header st = Some (Longjmp env val st1, log) ->
  exists st' log',
    unwinding k fuel ue_header st = Some (unwind_caught st', log').
Proof.
  intros Hnof Hkeeps Hl Hfuel Hk Hraise.
  unfold unwind. rewrite Hraise. rewrite bind_after_log. cbv beta iota.
  unfold __pnacl_eh_sjlj_Unwind_RaiseException in Hraise.
  apply bind_Some in Hraise as (o & l1 & l2 & Hhandle & Ho & ->).
  destruct o as [[] st2|env2 val2 st2|st2]; try discriminate.
  injection Ho as He Hv Hst Hl2. subst env2 val2 st2 l2.
  apply handle_exception_Longjmp_inv in Hhandle
    as (xh & F & c & obj' & fr & log1 & log2 & Hxh & Hsearch & Hfr & Hprobe
        & _ & _ & -> & ->).
  destruct (find_match_loop_found _ _ _ _ _ _ _ _ _ _ _ _ _ _ _ _ Hsearch Hl)
    as (inner & outer & fr' & Hsplit & Hfr' & Hout & _).
  rewrite Hfr in Hfr'. injection Hfr' as <-.
  assert (HF : F ∉ outer).
  { eapply stack_chain_not_in_tail. eapply stack_chain_from.
    rewrite <- Hsplit. exact Hl. }
  destruct (resume_cleanups_caught fuel ue_header k Hnof Hkeeps outer
              (landed ue_header F obj' c xh fr st)
              (with_handlerSwitchValue c (with_adjustedPtr obj' xh)))
    as (st' & log' & Hrun).
  - unfold landed. cbn [frames __pnacl_eh_stack].
    apply stack_chain_insert; assumption.
  - subst l. rewrite length_app in Hk. simpl in Hk. lia.
  - subst l. rewrite length_app in Hfuel. simpl in Hfuel. lia.
  - unfold landed. cbn [exceptions]. apply lookup_insert_eq.
  - cbn [handlerSwitchValue with_handlerSwitchValue]. intros Hc. subst c.
    cbn [andb Z.eqb] in Hprobe.
    unfold find_match in Hsearch.
    pose proof (find_match_loop_pointer _ _ _ _ _ _ _ _ _ _ Hkeeps Hsearch)
      as (lg0 & Hclause).
    rewrite does_clause_match_cleanup in Hclause. injection Hclause as <- _.
    exists log2.
    rewrite (object_of_landed sizeof_Unwind_Exception
               kOurDependentExceptionClass).
    cbn [exceptionType with_handlerSwitchValue with_adjustedPtr].
    cbn [__pnacl_eh_stack landed].
    unfold is_exception_caught in Hprobe |- *.
    rewrite <- (is_exception_caught_loop_same_links fuel fuel (frames st)
                  _ (exceptionType xh) (object_of ue_header xh) (next fr)
                  (same_links_landed ue_header F (object_of ue_header xh) 0
                     xh fr st Hfr)).
    exact Hprobe.
  - exists st', ((log1 ++ log2) ++ log'). simpl. rewrite app_nil_r.
    rewrite Hrun. reflexivity.
Qed.

(** ** Frames that were unwound *)

(** X14.  After [handle_exception] has entered the landingpad of a
    frame, no raise or resume that follows (with any exception) selects
    that frame again, nor a frame that was before it on the stack: a
    later search from the new top returns only frames that were after
    it. *)
Theorem unwound_frames_not_selected (fuel : nat) (ue_header : ptr)
    (check : bool) (st : state) (l : list ptr) (env : frame_union) (val : Z)
    (st1 : state) (log : list can_catch_call) :
  stack_chain (frames st) (__pnacl_eh_stack st) l ->
  handle fuel ue_header check st = Some (Longjmp env val st1, log) ->
  exists inner F outer,
    l = inner ++ F :: outer /\
    stack_chain (frames st1) (__pnacl_eh_stack st1) outer /\
    forall (fuel' : nat) (throw_type obj p F' : ptr) (c' : Z) (p' : ptr)
        (log' : list can_catch_call),
      search fuel' (frames st1) throw_type obj p (__pnacl_eh_stack st1)
      = Some ((Some (F', c'), p'), log') ->
      F' ∈ outer /\ F' <> F /\ (F' ∉ inner).
Proof.
  intros Hl Hrun.
  apply handle_exception_Longjmp_inv in Hrun
    as (xh & F & c & obj' & fr & log1 & log2 & Hxh & Hsearch & Hfr & _
        & _ & _ & -> & _).
  destruct (find_match_loop_found _ _ _ _ _ _ _ _ _ _ _ _ _ _ _ _ Hsearch Hl)
    as (inner & outer & fr' & Hsplit & Hfr' & Hout & _).
  rewrite Hfr in Hfr'. injection Hfr' as <-.
  pose proof (stack_chain_NoDup _ _ _ Hl) as Hnd. rewrite Hsplit in Hnd.
  apply NoDup_app in Hnd as (_ & Hdisj & Hnd).
  apply NoDup_cons in Hnd as [HF _].
  assert (Hchain : stack_chain (frames (landed ue_header F obj' c xh fr st))
                     (next fr) outer).
  { unfold landed. cbn [frames]. apply stack_chain_insert; assumption. }
  exists inner, F, outer. split; [assumption|]. split; [exact Hchain|].
  intros fuel' throw_type obj p F' c' p' log' Hlater.
  cbn [__pnacl_eh_stack landed] in Hlater.
  destruct (find_match_loop_found _ _ _ _ _ _ _ _ _ _ _ _ _ _ _ _ Hlater Hchain)
    as (inner' & outer' & fr'' & Hsplit' & _).
  assert (Hin : F' ∈ outer).
  { rewrite Hsplit'. apply elem_of_app. right. apply elem_of_cons. auto. }
  split; [assumption|]. split.
  - intros ->. contradiction.
  - intros Hinner. apply (Hdisj F' Hinner). apply elem_of_cons. auto.
Qed.

(** ** The empty stack *)

(** X15.  With no frame on the stack, raising returns the code for the
    end of the stack with the memory as it was, and resuming calls
    [__cxa_begin_catch] on the memory as it was and ends in
    [std::terminate]; neither asks the comparator anything, whatever
    the exception. *)
Theorem empty_stack_unhandled (fuel : nat) (ue_header : ptr) (st : state)
    (xh : cxa_exception) :
  exceptions st !! ue_header = Some xh ->
  __pnacl_eh_stack st = NULL ->
  raise fuel ue_header st = Some (Return _URC_END_OF_STACK st, []) /\
  resume fuel ue_header st
  = Some (Terminate (__cxa_begin_catch ue_header st), []).
Proof.
  intros Hxh Htop.
  assert (Hsearch :
    search fuel (frames st) (exceptionType xh) handle_exception_obj
      (object_of ue_header xh) (__pnacl_eh_stack st)
    = Some ((None, object_of ue_header xh), [])).
  { rewrite Htop. unfold find_match. apply find_match_loop_NULL. }
  split.
  - apply (raise_of_handle _ _ _ _ _ _ _ _ _ _ _ (Return tt st)).
    eapply handle_exception_no_match; eassumption.
  - unfold __pnacl_eh_resume.
    rewrite (handle_exception_no_match _ _ _ _ _ _ _ _ fuel ue_header false st
               xh _ [] Hxh Hsearch).
    reflexivity.
Qed.

(** ** Frames pushed above a handler *)

(** X16.  With a comparator that leaves the pointer alone when it
    rejects, a frame pushed on the stack never hides a handler from the
    probe: when the probe from a frame's [next] finds a handler and the
    walk of the frame's own clause list is defined, the probe from the
    frame finds a handler too. *)
Theorem is_exception_caught_through_frame (fuel : nat)
    (fs : gmap Z exception_frame) (throw_type p a : ptr)
    (fr : exception_frame) (m : option Z) (p1 : ptr)
    (lg lg2 : list can_catch_call) :
  keeps_on_reject can_catch ->
  a <> NULL ->
  fs !! a = Some fr ->
  frame_match fuel throw_type is_exception_caught_obj p fr
    = Some ((m, p1), lg) ->
  probe fuel fs throw_type p (next fr) = Some (true, lg2) ->
  exists lg', probe (S fuel) fs throw_type p a = Some (true, lg').
Proof.
  intros Hkeeps Ha Hfr Hm Hrest. unfold is_exception_caught in *.
  rewrite (is_exception_caught_loop_frame _ _ _ _ _ _ _ _ _ _ _ _ Ha Hfr).
  unfold does_frame_match in Hm |- *.
  pose proof (does_frame_match_loop_pointer _ _ _ _ _ _ _ _ Hkeeps Hm) as Hp.
  rewrite (does_frame_match_loop_mono _ _ _ _ fuel (S fuel) _ _ _ _ _ Hm)
    by lia.
  rewrite bind_after_log.
  pose proof (is_exception_caught_loop_mono _ _ _ _ _ fuel fuel fuel (S fuel)
                fs throw_type p (next fr) _ Hrest ltac:(lia) ltac:(lia))
    as Hrest'.
  destruct m as [c|].
  - destruct (c =? 0) eqn:Hc; cbn [negb].
    + apply Z.eqb_eq in Hc. subst c. destruct Hp as (lg0 & Hclause).
      rewrite does_clause_match_cleanup in Hclause. injection Hclause as <- _.
      rewrite Hrest'. eexists. reflexivity.
    + eexists. reflexivity.
  - subst p1. rewrite Hrest'. eexists. reflexivity.
Qed.

End MoreFacts.

(** ** The further properties at work on the examples *)

Lemma ex_can_catch_keeps : keeps_on_reject ex_can_catch.
Proof.
  intros c t p. unfold ex_can_catch.
  destruct (c =? t); [discriminate|].
  destruct ((c =? type_B) && (t =? type_D)); [discriminate|reflexivity].
Qed.

Lemma ex_catch_table_no_filter : no_filter_clauses ex_catch_table.
Proof.
  unfold no_filter_clauses, ex_catch_table.
  repeat (constructor; [simpl; lia|]). constructor.
Qed.

Lemma ex_memory_cleanups_chain :
  stack_chain (frames ex_memory_cleanups) (__pnacl_eh_stack ex_memory_cleanups)
    [1000; 1100; 3000].
Proof.
  apply (stack_chain_frame _ 1000 (ex_frame [1] 1100 1));
    [unfold NULL; lia|vm_compute; reflexivity|].
  apply (stack_chain_frame _ 1100 (ex_frame [11] 3000 1));
    [unfold NULL; lia|vm_compute; reflexivity|].
  apply (stack_chain_frame _ 3000 (ex_frame [3] 0 2));
    [unfold NULL; lia|vm_compute; reflexivity|].
  apply stack_chain_end.
Qed.

Lemma ex_memory_catch_chain :
  stack_chain (frames ex_memory_catch) (__pnacl_eh_stack ex_memory_catch)
    [2000; 3000].
Proof.
  apply (stack_chain_frame _ 2000 (ex_frame [2] 3000 7));
    [unfold NULL; lia|vm_compute; reflexivity|].
  apply (stack_chain_frame _ 3000 (ex_frame [3] 0 2));
    [unfold NULL; lia|vm_compute; reflexivity|].
  apply stack_chain_end.
Qed.

(** X1 on the filter [-1] of the example table. *)
Lemma exception_spec_can_catch_in_bounds_witness :
  -1 < 0 /\ -1 <> int32_min /\
  - (-1) - 1 < Z.of_nat (length ex_filter_table).
Proof.
  apply (exception_spec_can_catch_in_bounds ex_can_catch ex_type_table
           ex_filter_table type_A 9032 (-1)
           (false, [{| call_catch_type := type_A;
                       call_throw_type := type_A;
                       call_adjusted := 9032 |}])).
  vm_compute. reflexivity.
Defined.

(** X2 on the filter [-2] of the example table, whose list is empty. *)
Lemma exception_spec_can_catch_empty_list_witness :
  exception_spec_can_catch ex_can_catch ex_type_table ex_filter_table
    type_A 9032 (-2) = Some (true, []).
Proof.
  apply (exception_spec_can_catch_empty_list ex_can_catch ex_type_table
           ex_filter_table type_A 9032 (-2)).
  - unfold int32_min. lia.
  - vm_compute. reflexivity.
Defined.

(** X3 on [ex_memory_unexpected]. *)
Lemma call_unexpected_needs_filter_witness :
  -1 < 0 /\
  - (-1) - 1 < Z.of_nat (length ex_filter_table) /\
  is_Some (exceptions (ex_memory_unexpected type_A) !! 9500).
Proof.
  apply (call_unexpected_needs_filter ex_can_catch ex_type_table ex_filter_table
           32 1 type_B 7000 ex_run_unexpected 9000 (ex_memory_unexpected type_A)
           (ex_exception type_B (-1)) 9500 (ex_memory_unexpected type_A)
           (exit_rethrow 9500,
            [{| call_catch_type := type_A;
                call_throw_type := type_A;
                call_adjusted := 9532 |}])).
  - vm_compute. reflexivity.
  - reflexivity.
  - vm_compute. reflexivity.
Defined.

(** X4 on [ex_memory_catch]: the pointer handed back is the
    comparator's adjustment of the object pointer for [type_B]. *)
Lemma find_match_pointer_witness :
  (3 <= 0 -> 9040 = 9032) /\
  (0 < 3 ->
   exists catch_type,
     array_get ex_type_table (3 - 1) = Some catch_type /\
     (catch_type = NULL -> 9040 = 9032) /\
     (catch_type <> NULL ->
      ex_can_catch catch_type type_D 9032 = (true, 9040))).
Proof.
  apply (find_match_pointer ex_can_catch ex_action_table ex_type_table
           ex_filter_table 5 (frames ex_memory_catch) type_D 5000 9032 2000
           (Some (2000, 3)) 9040
           [{| call_catch_type := type_B;
               call_throw_type := type_D;
               call_adjusted := 9032 |}]).
  - exact ex_can_catch_keeps.
  - vm_compute. reflexivity.
Defined.

(** X5 on [ex_memory_passed]: the search passes the frame at [2000],
    whose list does not match, and returns the frame at [3000]. *)
Lemma find_match_innermost_witness :
  exists inner outer fr,
    [2000; 3000] = inner ++ 3000 :: outer /\
    frames ex_memory_passed !! 3000 = Some fr /\ 3000 <> NULL /\
    (3000 ∉ inner) /\
    Forall (fun b =>
              exists frb q q' lg,
                frames ex_memory_passed !! b = Some frb /\
                does_frame_match ex_can_catch ex_action_table ex_type_table
                  ex_filter_table 5 type_B 5000 q frb = Some ((None, q'), lg))
           inner.
Proof.
  destruct (find_match_innermost ex_can_catch ex_action_table
              ex_type_table ex_filter_table
              5 (frames ex_memory_passed) type_B 5000 9032 2000 3000 3 9032
              [{| call_catch_type := type_A;
                  call_throw_type := type_B;
                  call_adjusted := 9032 |};
               {| call_catch_type := type_B;
                  call_throw_type := type_B;
                  call_adjusted := 9032 |}] [2000; 3000])
    as (inner & outer & fr & H1 & H2 & H3 & H4 & _ & H5).
  - vm_compute. reflexivity.
  - apply (stack_chain_frame _ 2000 (ex_frame [2] 3000 2));
      [unfold NULL; lia|vm_compute; reflexivity|].
    apply (stack_chain_frame _ 3000 (ex_frame [3] 0 7));
      [unfold NULL; lia|vm_compute; reflexivity|].
    apply stack_chain_end.
  - exists inner, outer, fr. auto.
Defined.

(** X6 on [ex_memory_unhandled]: the first match is a cleanup, the
    probe finds nothing, and the memory returned is the memory given. *)
Lemma handle_exception_returns_untouched_witness :
  ex_memory_unhandled = ex_memory_unhandled /\
  exists xh,
    exceptions ex_memory_unhandled !! 9000 = Some xh /\
    ((exists p',
        find_match ex_can_catch ex_action_table ex_type_table ex_filter_table
          5 (frames ex_memory_unhandled) (exceptionType xh) 5000
          (get_object_from_ue 32 1 9000 xh)
          (__pnacl_eh_stack ex_memory_unhandled)
        = Some ((None, p'),
                [{| call_catch_type := type_A;
                    call_throw_type := type_B;
                    call_adjusted := 9032 |}])) \/
     (exists F obj' fr log1 log2,
        true = true /\
        find_match ex_can_catch ex_action_table ex_type_table ex_filter_table
          5 (frames ex_memory_unhandled) (exceptionType xh) 5000
          (get_object_from_ue 32 1 9000 xh)
          (__pnacl_eh_stack ex_memory_unhandled)
        = Some ((Some (F, 0), obj'), log1) /\
        frames ex_memory_unhandled !! F = Some fr /\
        is_exception_caught ex_can_catch ex_action_table ex_type_table
          ex_filter_table 6000 5 (frames ex_memory_unhandled)
          (exceptionType xh) obj' (next fr)
        = Some (false, log2) /\
        [{| call_catch_type := type_A;
            call_throw_type := type_B;
            call_adjusted := 9032 |}] = log1 ++ log2)).
Proof.
  apply (handle_exception_returns_untouched ex_can_catch ex_action_table
           ex_type_table ex_filter_table 32 1 5000 6000 5 9000 true
           ex_memory_unhandled ex_memory_unhandled
           [{| call_catch_type := type_A;
               call_throw_type := type_B;
               call_adjusted := 9032 |}]).
  vm_compute. reflexivity.
Defined.

(** X7 on [ex_memory_unhandled], where the probe finds no handler, and
    on [ex_memory_no_match], where resuming finds no frame. *)
Lemma entry_points_unhandled_memory_witness :
  (_URC_END_OF_STACK = _URC_END_OF_STACK /\
   ex_memory_unhandled = ex_memory_unhandled) /\
  ex_begin_catch 9000 ex_memory_no_match
  = ex_begin_catch 9000 ex_memory_no_match.
Proof.
  split.
  - apply (proj1 (entry_points_unhandled_memory ex_can_catch ex_action_table
                    ex_type_table ex_filter_table 32 1 5000 6000 ex_begin_catch
                    5 9000 ex_memory_unhandled ex_memory_unhandled
                    [{| call_catch_type := type_A;
                        call_throw_type := type_B;
                        call_adjusted := 9032 |}])).
    vm_compute. reflexivity.
  - apply (proj2 (entry_points_unhandled_memory ex_can_catch ex_action_table
                    ex_type_table ex_filter_table 32 1 5000 6000 ex_begin_catch
                    5 9000 ex_memory_no_match
                    (ex_begin_catch 9000 ex_memory_no_match)
                    [{| call_catch_type := type_A;
                        call_throw_type := type_B;
                        call_adjusted := 9032 |};
                     {| call_catch_type := type_A;
                        call_throw_type := type_B;
                        call_adjusted := 9032 |}])).
    vm_compute. reflexivity.
Defined.

(** X8 on a frame with the clause list 1 of the example table. *)
Lemma does_frame_match_first_unconditional_witness :
  does_frame_match ex_can_catch ex_action_table ex_type_table ex_filter_table
    1 type_B 5000 9032 (ex_frame [1] 3000 1)
  = Some ((Some 0, 9032), []).
Proof.
  apply (does_frame_match_first_unconditional ex_can_catch ex_action_table
           ex_type_table ex_filter_table 0 type_B 5000 9032
           (ex_frame [1] 3000 1)
           {| clause_id := 0; next_clause_list_id := 0 |}).
  - vm_compute. discriminate.
  - vm_compute. reflexivity.
  - left. reflexivity.
Defined.

(** X9 on the clause list 3 of [ex_catch_table], a catch then a
    cleanup: one question for two clauses. *)
Lemma does_frame_match_calls_bounded_witness :
  (length [{| call_catch_type := type_B;
              call_throw_type := type_A;
              call_adjusted := 9032 |}] <= 2)%nat.
Proof.
  apply (does_frame_match_calls_bounded ex_can_catch ex_catch_table
           ex_type_table ex_filter_table 5 type_A 5000 9032
           (ex_frame [] 0 3)
           [ {| clause_id := 3; next_clause_list_id := 1 |};
             {| clause_id := 0; next_clause_list_id := 0 |} ]
           (Some 0, 9032)).
  - exact ex_catch_table_no_filter.
  - apply clause_list_node; [discriminate|reflexivity|].
    apply clause_list_node; [discriminate|reflexivity|].
    apply clause_list_end.
  - vm_compute. reflexivity.
Defined.

(** X11 on [ex_memory_cleanups]: the search stops at the cleanup of the
    frame at [1000], and the probe goes on from the frame at [1100]. *)
Lemma is_exception_caught_after_search_witness :
  exists fr,
    frames ex_memory_cleanups !! 1000 = Some fr /\
    is_exception_caught ex_can_catch ex_catch_table ex_type_table
      ex_filter_table 6000 5 (frames ex_memory_cleanups) type_A 9032 1000
    = after_log []
        (is_exception_caught ex_can_catch ex_catch_table ex_type_table
           ex_filter_table 6000 5 (frames ex_memory_cleanups) type_A 9032
           (next fr)).
Proof.
  exact (is_exception_caught_after_search ex_can_catch ex_catch_table
           ex_type_table ex_filter_table 6000 5 (frames ex_memory_cleanups)
           type_A 5000 9032 1000 [1000; 1100; 3000]
           ex_catch_table_no_filter ex_memory_cleanups_chain
           ltac:(simpl; lia)).
Defined.

(** X12 on [ex_memory_cleanups]. *)
Lemma raise_as_probe_first_witness :
  outcome_of
    (__pnacl_eh_sjlj_Unwind_RaiseException ex_can_catch ex_catch_table
       ex_type_table ex_filter_table 32 1 5000 6000 5 9000 ex_memory_cleanups)
  = outcome_of
      (raise_probe_first ex_can_catch ex_catch_table
         ex_type_table ex_filter_table 32 1 5000 6000 5 9000
         ex_memory_cleanups).
Proof.
  apply (raise_as_probe_first ex_can_catch ex_catch_table ex_type_table
           ex_filter_table 32 1 5000 6000 5 9000 ex_memory_cleanups
           [1000; 1100; 3000]).
  - exact ex_catch_table_no_filter.
  - exact ex_memory_cleanups_chain.
  - simpl. lia.
Defined.

(** X13 on [ex_memory_cleanups]: the raise enters the cleanup at
    [1000], and the unwind ends in the handler. *)
Lemma unwind_reaches_handler_witness :
  exists st' log',
    unwind ex_can_catch ex_catch_table ex_type_table ex_filter_table
      32 1 5000 6000 ex_begin_catch 5 5 9000 ex_memory_cleanups
    = Some (unwind_caught st', log').
Proof.
  apply (unwind_reaches_handler ex_can_catch ex_catch_table ex_type_table
           ex_filter_table 32 1 5000 6000 ex_begin_catch 5 5 9000 ex_memory_cleanups
           [1000; 1100; 3000] (as_jmpbuf [1]) 1
           (landed 9000 1000 9032 0 (ex_exception type_A 0)
              (ex_frame [1] 1100 1) ex_memory_cleanups)
           [{| call_catch_type := type_A;
               call_throw_type := type_A;
               call_adjusted := 9032 |}]).
  - exact ex_catch_table_no_filter.
  - exact ex_can_catch_keeps.
  - exact ex_memory_cleanups_chain.
  - simpl. lia.
  - simpl. lia.
  - vm_compute. reflexivity.
Defined.

(** X14 on [ex_memory_cleanups], after the landingpad at [1000] was
    entered. *)
Lemma unwound_frames_not_selected_witness :
  exists inner F outer,
    [1000; 1100; 3000] = inner ++ F :: outer /\
    stack_chain
      (frames (landed 9000 1000 9032 0 (ex_exception type_A 0)
                 (ex_frame [1] 1100 1) ex_memory_cleanups))
      (__pnacl_eh_stack
         (landed 9000 1000 9032 0 (ex_exception type_A 0)
            (ex_frame [1] 1100 1) ex_memory_cleanups))
      outer.
Proof.
  destruct (unwound_frames_not_selected ex_can_catch ex_action_table
              ex_type_table ex_filter_table 32 1 5000 6000 5 9000 true
              ex_memory_cleanups [1000; 1100; 3000] (as_jmpbuf [1]) 1
              (landed 9000 1000 9032 0 (ex_exception type_A 0)
                 (ex_frame [1] 1100 1) ex_memory_cleanups)
              [{| call_catch_type := type_A;
                  call_throw_type := type_A;
                  call_adjusted := 9032 |}])
    as (inner & F & outer & H1 & H2 & _).
  - exact ex_memory_cleanups_chain.
  - vm_compute. reflexivity.
  - exists inner, F, outer. auto.
Defined.

(** X15 on a memory with no frame. *)
Lemma empty_stack_unhandled_witness :
  __pnacl_eh_sjlj_Unwind_RaiseException ex_can_catch ex_action_table
    ex_type_table ex_filter_table 32 1 5000 6000 0 9000
    (ex_memory_unexpected type_A)
  = Some (Return _URC_END_OF_STACK (ex_memory_unexpected type_A), []) /\
  __pnacl_eh_resume ex_can_catch ex_action_table
    ex_type_table ex_filter_table 32 1 5000 6000 ex_begin_catch 0 9000
    (ex_memory_unexpected type_A)
  = Some (Terminate (ex_begin_catch 9000 (ex_memory_unexpected type_A)), []).
Proof.
  apply (empty_stack_unhandled ex_can_catch ex_action_table ex_type_table
           ex_filter_table 32 1 5000 6000 ex_begin_catch 0 9000 (ex_memory_unexpected type_A)
           (ex_exception type_B (-1))).
  - vm_compute. reflexivity.
  - reflexivity.
Defined.

(** X16 on [ex_memory_cleanups]: the cleanup frame at [1100] does not
    hide the handler at [3000]. *)
Lemma is_exception_caught_through_frame_witness :
  exists lg',
    is_exception_caught ex_can_catch ex_action_table ex_type_table
      ex_filter_table 6000 6 (frames ex_memory_cleanups) type_A 9032 1100
    = Some (true, lg').
Proof.
  apply (is_exception_caught_through_frame ex_can_catch ex_action_table
           ex_type_table ex_filter_table 6000 5 (frames ex_memory_cleanups)
           type_A 9032 1100 (ex_frame [11] 3000 1) (Some 0) 9032 []
           [{| call_catch_type := type_A;
               call_throw_type := type_A;
               call_adjusted := 9032 |}]).
  - exact ex_can_catch_keeps.
  - unfold NULL. lia.
  - vm_compute. reflexivity.
  - vm_compute. reflexivity.
  - vm_compute. reflexivity.
Defined.
